(** * paul-bot: the poll/option voting aggregate and its presentation layer

    A shallow embedding of
      - poll/option.py                       (class Option),
      - paul_bot/presentation/converters.py  (parse_options, length_bound_str),
      - paul_bot/presentation/paul.py        (class Paul),
    and the properties of the specification that are stated about them.

    Python ints are [Z]; a Python [set] of ints is a [gset Z]; datetimes and
    timedeltas are [Z] (microseconds, UTC); strings are [string], one
    character per code point below 256.  Coroutines
    are run to completion in program order: an [await] is sequencing in a
    state-and-exception monad.  Interleavings of several coroutines are not
    part of this model, except for the close task, whose sleep is an explicit
    suspension point. *)

From Stdlib Require Import ZArith String Ascii List Lia Bool DecimalString
  DecimalPos DecimalZ.
From stdpp Require Import base gmap sets list strings option.

Local Open Scope Z_scope.

Set Warnings "-clear-no-such-hyp".

(** ** Exceptions and the state-and-exception monad *)

(** The texts carried by [FriendlyError]; the data each f-string formats is
    kept, the wording is not. *)
Inductive friendly : Type :=
| TooManyOptions (result : list string)
| OptionTooLong (option : string)
| CannotAddOptions
| LengthOutOfBounds (min max : Z) (s : string).

Inductive exn : Type :=
| FriendlyError (msg : friendly)
| RuntimeError (reason : string)
| Forbidden
| TypeError
| ValueError
| CapacityError
| DanglingReference.

Inductive res (A : Type) : Type :=
| Ok (a : A)
| Raise (e : exn).
Arguments Ok {A} a.
Arguments Raise {A} e.

(** A computation over a mutable state [S]: what was mutated before an
    exception is raised stays mutated, as in Python. *)
Definition M (S A : Type) : Type := S -> res A * S.

#[global] Instance M_ret S : MRet (M S) := fun A a s => (Ok a, s).

#[global] Instance M_bind S : MBind (M S) := fun A B f m s =>
  match m s with
  | (Ok a, s') => f a s'
  | (Raise e, s') => (Raise e, s')
  end.

Definition raise {S A} (e : exn) : M S A := fun s => (Raise e, s).
Definition gets {S A} (f : S -> A) : M S A := fun s => (Ok (f s), s).
Definition modify {S} (f : S -> S) : M S unit := fun s => (Ok tt, f s).

(** [try: body except e: handler] for one exception. *)
Definition try_except {S A} (body : M S A) (catches : exn -> bool)
    (handler : exn -> M S A) : M S A := fun s =>
  match body s with
  | (Ok a, s') => (Ok a, s')
  | (Raise e, s') => if catches e then handler e s' else (Raise e, s')
  end.

(** [for x in l: f x] *)
Fixpoint for_each {S A} (l : list A) (f : A -> M S unit) : M S unit :=
  match l with
  | [] => mret tt
  | x :: l' => f x;; for_each l' f
  end.

(** ** The store

    Modelled from the spec: the [sql] package (sql.insert, sql.delete,
    sql.select) is not part of the sources at hand; the tables follow the
    Store interface of section 6: insertVote is idempotent, deleteVote removes
    the row if present, insertOptions returns one (id, label) per label,
    insertPoll returns the new id.  The store is taken as reachable:
    persistence failures are outside the model. *)

Record OptionRow := {
  row_id : Z;
  row_label : string;
  row_poll_id : Z;
  row_author : option Z
}.

Record PollRow := {
  prow_id : Z;
  prow_question : string;
  prow_expires : option Z;
  prow_closed : bool
}.

Record Store := {
  poll_rows : list PollRow;
  option_rows : list OptionRow;
  vote_rows : gset (Z * Z);      (* (option_id, voter_id) *)
  poll_serial : Z;
  option_serial : Z
}.

Definition set_vote_rows (f : gset (Z * Z) -> gset (Z * Z)) (st : Store) : Store :=
  {| poll_rows := poll_rows st; option_rows := option_rows st;
     vote_rows := f (vote_rows st);
     poll_serial := poll_serial st; option_serial := option_serial st |}.

(** sql.delete(pool, "votes", option_id=.., voter_id=..) *)
Definition sql_delete_vote (option_id voter_id : Z) (st : Store) : Store :=
  set_vote_rows (fun rows => rows ∖ {[ (option_id, voter_id) ]}) st.

(** sql.insert.one(pool, "votes", on_conflict="DO NOTHING", ..) *)
Definition sql_insert_vote (option_id voter_id : Z) (st : Store) : Store :=
  set_vote_rows (fun rows => {[ (option_id, voter_id) ]} ∪ rows) st.

(** sql.insert.many(pool, "options", .., returning="id, label") *)
Fixpoint fresh_option_rows (labels : list string) (poll_id : Z)
    (author : option Z) (next : Z) : list OptionRow :=
  match labels with
  | [] => []
  | l :: ls =>
      {| row_id := next; row_label := l; row_poll_id := poll_id; row_author := author |}
      :: fresh_option_rows ls poll_id author (next + 1)
  end.

Definition sql_insert_options (labels : list string) (poll_id : Z)
    (author : option Z) (st : Store) : list OptionRow * Store :=
  let rows := fresh_option_rows labels poll_id author (option_serial st) in
  (rows,
   {| poll_rows := poll_rows st; option_rows := option_rows st ++ rows;
      vote_rows := vote_rows st;
      poll_serial := poll_serial st;
      option_serial := option_serial st + Z.of_nat (length labels) |}).

Definition sql_insert_poll (question : string) (expires : option Z) (st : Store)
    : Z * Store :=
  (poll_serial st,
   {| poll_rows := poll_rows st ++
        [{| prow_id := poll_serial st; prow_question := question;
            prow_expires := expires; prow_closed := false |}];
      option_rows := option_rows st; vote_rows := vote_rows st;
      poll_serial := poll_serial st + 1;
      option_serial := option_serial st |}).

Definition close_row (poll_id : Z) (r : PollRow) : PollRow :=
  if Z.eqb (prow_id r) poll_id
  then {| prow_id := prow_id r; prow_question := prow_question r;
          prow_expires := prow_expires r; prow_closed := true |}
  else r.

Definition sql_update_poll_closed (poll_id : Z) (st : Store) : Store :=
  {| poll_rows := map (close_row poll_id) (poll_rows st);
     option_rows := option_rows st; vote_rows := vote_rows st;
     poll_serial := poll_serial st; option_serial := option_serial st |}.

(** ** poll/option.py: class Option *)

(** The attributes of an Option object.  [__votes] is the private set; the
    back-reference [self.poll] is the position of the object in its poll's
    option list (see [Agg] below), and [self.pool] is the store. *)
Record Option := {
  option_id : Z;
  label : string;
  __votes : gset Z;
  author_id : option Z
}.

(** Option.__init__(option_id, label, votes, pool, author_id): set(votes) *)
Definition Option_init (option_id : Z) (label : string) (votes : list Z)
    (author_id : option Z) : Option :=
  {| option_id := option_id; label := label;
     __votes := list_to_set votes; author_id := author_id |}.

(** The property [votes]: self.__votes.copy().  At the level of values the
    copy is the set itself; the object level is [Heap] below. *)
Definition votes (self : Option) : gset Z := __votes self.

(** The property [vote_count]: len(self.__votes) *)
Definition vote_count (self : Option) : Z := Z.of_nat (size (__votes self)).

Definition with_votes (f : gset Z -> gset Z) (o : Option) : Option :=
  {| option_id := option_id o; label := label o;
     __votes := f (__votes o); author_id := author_id o |}.

(** Modelled from the spec: class Poll (poll/poll.py) is not part of the
    sources at hand.  The attributes are those of section 3; [message_id]
    is the message locator and [closed] records that close() was called. *)
Record Mention := { kind : string; mention_id : Z }.

Record Poll := {
  poll_id : Z;
  question : string;
  options : list Option;
  expires : option Z;
  allow_multiple_votes : bool;
  allowed_vote_viewers : list Mention;
  allowed_editors : list Mention;
  allowed_voters : list Mention;
  poll_author_id : Z;
  message_id : Z;
  closed : bool
}.

Definition set_options (f : list Option -> list Option) (p : Poll) : Poll :=
  {| poll_id := poll_id p; question := question p; options := f (options p);
     expires := expires p; allow_multiple_votes := allow_multiple_votes p;
     allowed_vote_viewers := allowed_vote_viewers p;
     allowed_editors := allowed_editors p; allowed_voters := allowed_voters p;
     poll_author_id := poll_author_id p; message_id := message_id p;
     closed := closed p |}.

Definition set_closed (b : bool) (p : Poll) : Poll :=
  {| poll_id := poll_id p; question := question p; options := options p;
     expires := expires p; allow_multiple_votes := allow_multiple_votes p;
     allowed_vote_viewers := allowed_vote_viewers p;
     allowed_editors := allowed_editors p; allowed_voters := allowed_voters p;
     poll_author_id := poll_author_id p; message_id := message_id p;
     closed := b |}.

(** The aggregate a vote operation runs on: one poll with its options, and
    the store behind them.  An Option object is addressed by its position
    [self] in [options (poll s)]; that position is both the object's identity
    and its back-reference to the poll. *)
Record Agg := { store : Store; poll : Poll }.

Definition on_store (f : Store -> Store) : M Agg unit :=
  modify (fun s => {| store := f (store s); poll := poll s |}).

Definition on_poll (f : Poll -> Poll) : M Agg unit :=
  modify (fun s => {| store := store s; poll := f (poll s) |}).

(** Reading the object [self]. *)
Definition the_option (self : nat) : M Agg Option :=
  p ← gets poll;
  match options p !! self with
  | Some o => mret o
  | None => raise DanglingReference
  end.

(** Option.remove_vote *)
Definition Option_remove_vote (self : nat) (voter_id : Z) : M Agg unit :=
  o ← the_option self;
  on_store (sql_delete_vote (option_id o) voter_id);;
  on_poll (set_options (alter (with_votes (fun vs => vs ∖ {[ voter_id ]})) self)).

(** Modelled from the spec: Poll.remove_votes_from (poll/poll.py is not part
    of the sources at hand).  Section 4.2: "removes voterId's vote from every
    option of this poll". *)
Definition Poll_remove_votes_from (voter_id : Z) : M Agg unit :=
  p ← gets poll;
  for_each (seq 0 (length (options p))) (fun i => Option_remove_vote i voter_id).

(** Option.add_vote *)
Definition Option_add_vote (self : nat) (voter_id : Z) : M Agg unit :=
  o ← the_option self;
  p ← gets poll;
  (if negb (allow_multiple_votes p)
   then Poll_remove_votes_from voter_id
   else mret tt);;
  on_store (sql_insert_vote (option_id o) voter_id);;
  on_poll (set_options (alter (with_votes (fun vs => {[ voter_id ]} ∪ vs)) self)).

(** Option.toggle_vote *)
Definition Option_toggle_vote (self : nat) (voter_id : Z) : M Agg unit :=
  o ← the_option self;
  if bool_decide (voter_id ∈ votes o)
  then Option_remove_vote self voter_id
  else Option_add_vote self voter_id.

(** Option.create_options: one row per label, one Option object with an empty
    vote set per returned record. *)
Definition Option_create_options (labels : list string) (poll_id : Z)
    (author_id : option Z) (st : Store) : list Option * Store :=
  let '(records, st') := sql_insert_options labels poll_id author_id st in
  (map (fun r => Option_init (row_id r) (row_label r) [] author_id) records, st').

(** ** Option objects on a heap of set objects

    The object-level reading of the accessors: [self.__votes] holds a
    reference to a mutable set object, and [set.copy()] allocates a new one. *)
Module Heap.

Abbreviation loc := positive.
Abbreviation heap := (gmap loc (gset Z)).

Record OptionObj := {
  obj_option_id : Z;
  obj_label : string;
  votes_ref : loc;
  obj_author_id : option Z
}.

(** The value an Option object stands for in a heap. *)
Definition abstract (h : heap) (self : OptionObj) : option Option :=
  vs ← h !! votes_ref self;
  Some {| option_id := obj_option_id self; label := obj_label self;
          __votes := vs; author_id := obj_author_id self |}.

(** set.copy() *)
Definition set_copy (l : loc) : M heap loc := fun h =>
  match h !! l with
  | Some vs => let l' := fresh (dom h) in (Ok l', <[ l' := vs ]> h)
  | None => (Raise DanglingReference, h)
  end.

(** len(s) *)
Definition set_len (l : loc) : M heap Z := fun h =>
  match h !! l with
  | Some vs => (Ok (Z.of_nat (size vs)), h)
  | None => (Raise DanglingReference, h)
  end.

(** Any in-place mutation of the set object at [l]: add, discard, clear,
    update, difference_update and the like are instances. *)
Definition set_mutate (f : gset Z -> gset Z) (l : loc) : M heap unit := fun h =>
  match h !! l with
  | Some vs => (Ok tt, <[ l := f vs ]> h)
  | None => (Raise DanglingReference, h)
  end.

Definition set_add (x : Z) : loc -> M heap unit := set_mutate (fun vs => {[ x ]} ∪ vs).
Definition set_discard (x : Z) : loc -> M heap unit := set_mutate (fun vs => vs ∖ {[ x ]}).
Definition set_clear : loc -> M heap unit := set_mutate (fun _ => ∅).

(** The property [votes]: return self.__votes.copy() *)
Definition Option_votes (self : OptionObj) : M heap loc := set_copy (votes_ref self).

(** The property [vote_count]: return len(self.__votes) *)
Definition Option_vote_count (self : OptionObj) : M heap Z := set_len (votes_ref self).

End Heap.

(** ** paul_bot/presentation/converters.py *)

(** str.isspace() on one character (code points below 256). *)
Definition is_space (c : ascii) : bool :=
  let n := N_of_ascii c in
  ((9 <=? n) && (n <=? 13) || (28 <=? n) && (n <=? 32) || (n =? 133) || (n =? 160))%N.

Fixpoint lstrip (s : string) : string :=
  match s with
  | EmptyString => EmptyString
  | String c s' => if is_space c then lstrip s' else s
  end.

Fixpoint rstrip (s : string) : string :=
  match s with
  | EmptyString => EmptyString
  | String c s' =>
      match rstrip s' with
      | EmptyString => if is_space c then EmptyString else String c EmptyString
      | r => String c r
      end
  end.

(** str.strip() *)
Definition strip (s : string) : string := rstrip (lstrip s).

(** The pieces of [s] between the occurrences of a non-empty [sep], found
    left to right without overlap; [skip] counts the characters of an
    occurrence still to be passed over. *)
Fixpoint split_from (sep : string) (skip : nat) (s : string) : list string :=
  match s with
  | EmptyString => [EmptyString]
  | String c s' =>
      match skip with
      | S k => split_from sep k s'
      | O =>
          if String.prefix sep s
          then EmptyString :: split_from sep (String.length sep - 1) s'
          else match split_from sep O s' with
               | p :: ps => String c p :: ps
               | [] => [String c EmptyString]
               end
      end
  end.

(** str.split(sep): an empty separator is a ValueError. *)
Definition str_split (s sep : string) : res (list string) :=
  match sep with
  | EmptyString => Raise ValueError
  | _ => Ok (split_from sep O s)
  end.

(** bool(option): a non-empty string *)
Definition truthy (s : string) : bool :=
  match s with EmptyString => false | _ => true end.

Definition len (s : string) : Z := Z.of_nat (String.length s).

(** The list comprehension of [converter]:
    [option.strip() for option in options.split(sep) if option] *)
Definition stripped_pieces (pieces : list string) : list string :=
  map strip (List.filter truthy pieces).

(** parse_options(sep)(inter, options).  The logger call is not modelled. *)
Definition parse_options (sep : string) (options : string) : res (list string) :=
  match str_split options sep with
  | Raise e => Raise e
  | Ok pieces =>
      let result := stripped_pieces pieces in
      if 23 <? Z.of_nat (length result)
      then Raise (FriendlyError (TooManyOptions result))
      else match List.find (fun option => 253 <? len option) result with
           | Some option => Raise (FriendlyError (OptionTooLong option))
           | None =>
               match result with
               | [] => Ok ["Yes"%string; "No"%string]
               | _ => Ok result
               end
           end
  end.

(** length_bound_str(max, min)(inter, string) *)
Definition length_bound_str (max min : Z) (s : string) : res string :=
  if (max <? len s) || (len s <? min)
  then Raise (FriendlyError (LengthOutOfBounds min max s))
  else Ok s.

(** ** class Poll, as far as paul.py uses it *)

(** Modelled from the spec: Poll.MAX_OPTIONS is declared in the Poll class,
    which is not part of the sources at hand; its value is the cap that
    parse_options enforces and reports ("Maximum is 23"). *)
Definition MAX_OPTIONS : Z := 23.

(** Modelled from the spec: Poll.is_expired (section 4.2): "true once the
    wall-clock has passed expires OR close() has been called". *)
Definition Poll_is_expired (p : Poll) (now : Z) : bool :=
  closed p || match expires p with Some e => e <? now | None => false end.

(** Modelled from the spec: Poll.is_opened, "the logical negation". *)
Definition Poll_is_opened (p : Poll) (now : Z) : bool := negb (Poll_is_expired p now).

(** Modelled from the spec: Poll.close (section 4.2): "marks the poll closed
    (persists closed/expiry state ..); idempotent". *)
Definition Poll_close : M Agg unit :=
  p ← gets poll;
  on_store (sql_update_poll_closed (poll_id p));;
  on_poll (set_closed true).

(** Modelled from the spec: Poll.new_option (section 4.2): "fails with a
    capacity error if the poll already has MAX_OPTIONS options or is closed;
    otherwise persists and appends one Option, attaching its poll
    back-reference before returning". *)
Definition Poll_new_option (now : Z) (label : string) (author_id : Z) : M Agg unit :=
  p ← gets poll;
  if (Z.of_nat (length (options p)) =? MAX_OPTIONS) || Poll_is_expired p now
  then raise CapacityError
  else
    st ← gets store;
    let '(new, st') := Option_create_options [label] (poll_id p) (Some author_id) st in
    on_store (fun _ => st');;
    on_poll (set_options (fun os => os ++ new)).

(** ** paul_bot/presentation/paul.py: class Paul *)

(** PollCommandParams (command_params.py is not part of the sources at hand):
    the record of the nine values the poll command passes to its
    constructor, in that order. *)
Module PollCommandParams.
Record t := {
  question : string;
  options : list string;
  expires : option Z;
  allow_multiple_votes : bool;
  allowed_vote_viewers : list Mention;
  allowed_editors : list Mention;
  allowed_voters : list Mention;
  repeat_time : option Z;
  repeat_count : option Z
}.

(** params.expires = e *)
Definition set_expires (e : option Z) (params : t) : t :=
  {| question := question params; options := options params; expires := e;
     allow_multiple_votes := allow_multiple_votes params;
     allowed_vote_viewers := allowed_vote_viewers params;
     allowed_editors := allowed_editors params;
     allowed_voters := allowed_voters params;
     repeat_time := repeat_time params; repeat_count := repeat_count params |}.
End PollCommandParams.

(** What the bot shows: the embed classes, by what they are built from. *)
Inductive embed : Type :=
| PollEmbed (p : Poll)
| PollClosedEmbed (p : Poll)
| LoadingEmbed (question : string)
| RepeatTimeNeededEmbed
| SomethingWentWrongEmbed (question reason : string).

(** The requests the bot sends to Discord. *)
Inductive request : Type :=
| SendMessage (message : Z) (e : embed)
| EditMessage (message : Z) (e : embed)
| ChangePresence (active total servers : Z).

(** asyncio.create_task(..): the coroutine calls handed to the event loop. *)
Inductive spawned : Type :=
| SpawnRepeatPoll (params : PollCommandParams.t) (author_id message : Z)
| SpawnPollCloseTask (poll : Z).

(** The bot and its surroundings.  [polls] holds the Poll objects alive in
    memory, by id: a reference to a Poll is its key.  [activity_name] is the
    triple the presence text is formatted from ([None] for the initial empty
    string); [editable] tells whether Discord lets the bot edit its messages
    (otherwise message.edit raises Forbidden). *)
Record World := {
  w_store : Store;
  polls : gmap Z Poll;
  total_poll_count : Z;
  closed_poll_count : Z;
  activity_name : option (Z * Z * Z);
  guilds : Z;
  now : Z;
  editable : bool;
  requests : list request;
  tasks : list spawned;
  message_serial : Z
}.

Definition set_agg (ref : Z) (a : Agg) (w : World) : World :=
  Build_World (store a) (<[ ref := poll a ]> (polls w)) (total_poll_count w)
    (closed_poll_count w) (activity_name w) (guilds w) (now w) (editable w)
    (requests w) (tasks w) (message_serial w).

Definition set_total_poll_count (n : Z) (w : World) : World :=
  Build_World (w_store w) (polls w) n
    (closed_poll_count w) (activity_name w) (guilds w) (now w) (editable w)
    (requests w) (tasks w) (message_serial w).

Definition set_closed_poll_count (n : Z) (w : World) : World :=
  Build_World (w_store w) (polls w) (total_poll_count w)
    n (activity_name w) (guilds w) (now w) (editable w)
    (requests w) (tasks w) (message_serial w).

Definition set_activity_name (a : option (Z * Z * Z)) (w : World) : World :=
  Build_World (w_store w) (polls w) (total_poll_count w)
    (closed_poll_count w) a (guilds w) (now w) (editable w)
    (requests w) (tasks w) (message_serial w).

Definition set_now (t : Z) (w : World) : World :=
  Build_World (w_store w) (polls w) (total_poll_count w)
    (closed_poll_count w) (activity_name w) (guilds w) t (editable w)
    (requests w) (tasks w) (message_serial w).

Definition add_request (r : request) (w : World) : World :=
  Build_World (w_store w) (polls w) (total_poll_count w)
    (closed_poll_count w) (activity_name w) (guilds w) (now w) (editable w)
    (requests w ++ [r]) (tasks w) (message_serial w).

Definition add_task (t : spawned) (w : World) : World :=
  Build_World (w_store w) (polls w) (total_poll_count w)
    (closed_poll_count w) (activity_name w) (guilds w) (now w) (editable w)
    (requests w) (tasks w ++ [t]) (message_serial w).

Definition set_message_serial (n : Z) (w : World) : World :=
  Build_World (w_store w) (polls w) (total_poll_count w)
    (closed_poll_count w) (activity_name w) (guilds w) (now w) (editable w)
    (requests w) (tasks w) n.

(** Reading the Poll object behind a reference. *)
Definition the_poll (ref : Z) : M World Poll := fun w =>
  match polls w !! ref with
  | Some p => (Ok p, w)
  | None => (Raise DanglingReference, w)
  end.

(** A method of a Poll, or of one of its Options, run on the Poll object
    behind a reference. *)
Definition with_poll {A} (ref : Z) (m : M Agg A) : M World A := fun w =>
  match polls w !! ref with
  | Some p =>
      let '(r, a) := m {| store := w_store w; poll := p |} in (r, set_agg ref a w)
  | None => (Raise DanglingReference, w)
  end.

(** message.edit(embed=.., view=..) *)
Definition message_edit (message : Z) (e : embed) : M World unit :=
  modify (add_request (EditMessage message e));;
  ok ← gets editable;
  if ok : bool then mret tt else raise Forbidden.

(** asyncio.sleep(seconds), for a coroutine that is run to completion. *)
Definition sleep (seconds : Z) : M World unit :=
  modify (fun w => set_now (now w + Z.max 0 seconds) w).

(** Modelled from the spec: Poll.create_poll (section 4.2): "validates option
    count <= MAX_OPTIONS before persisting; persists the poll row, then the
    option rows, then links them; returns a fully assembled Poll".  The
    creation error is the RuntimeError that new_poll handles. *)
Definition Poll_create_poll (params : PollCommandParams.t) (author_id message : Z)
    : M World Z := fun w =>
  if MAX_OPTIONS <? Z.of_nat (length (PollCommandParams.options params))
  then (Raise (RuntimeError "too many options"), w)
  else
    let '(id, st1) :=
      sql_insert_poll (PollCommandParams.question params)
        (PollCommandParams.expires params) (w_store w) in
    let '(os, st2) :=
      Option_create_options (PollCommandParams.options params) id None st1 in
    let p :=
      {| poll_id := id;
         question := PollCommandParams.question params;
         options := os;
         expires := PollCommandParams.expires params;
         allow_multiple_votes := PollCommandParams.allow_multiple_votes params;
         allowed_vote_viewers := PollCommandParams.allowed_vote_viewers params;
         allowed_editors := PollCommandParams.allowed_editors params;
         allowed_voters := PollCommandParams.allowed_voters params;
         poll_author_id := author_id;
         message_id := message;
         closed := false |} in
    (Ok id, set_agg id {| store := st2; poll := p |} w).

(** Modelled from the spec: paul_bot.application.option.Option.toggle_vote,
    the method that Paul.toggle_vote calls; its module is not part of the
    sources at hand, and paul.py calls it as a plain method (no await).
    Section 4.1: "if voterId currently in this option's vote set, performs
    removeVote; else performs addVote", with removeVote and addVote as
    section 4.1 words them, which is what [Option_remove_vote] and
    [Option_add_vote] do. *)
Definition application_Option_toggle_vote (self : nat) (voter_id : Z) : M Agg unit :=
  o ← the_option self;
  if bool_decide (voter_id ∈ __votes o)
  then Option_remove_vote self voter_id
  else Option_add_vote self voter_id.

Definition is_Forbidden (e : exn) : bool :=
  match e with Forbidden => true | _ => false end.

Definition is_RuntimeError (e : exn) : bool :=
  match e with RuntimeError _ => true | _ => false end.

(** Paul.__get_poll_message *)
Definition Paul_get_poll_message (poll : Z) : M World Z :=
  p ← the_poll poll; mret (message_id p).

(** Paul.__update_poll_message *)
Definition Paul_update_poll_message (poll : Z) (message : option Z) : M World unit :=
  try_except
    (message ← match message with
               | Some m => mret m
               | None => Paul_get_poll_message poll
               end;
     p ← the_poll poll;
     t ← gets now;
     message_edit message
       (if Poll_is_expired p t then PollClosedEmbed p else PollEmbed p))
    is_Forbidden
    (fun _ => mret tt).

(** Paul.__set_presence *)
Definition Paul_set_presence : M World unit :=
  total ← gets total_poll_count;
  closed_count ← gets closed_poll_count;
  servers ← gets guilds;
  let active_polls := total - closed_count in
  let name := Some (active_polls, total, servers) in
  current ← gets activity_name;
  if bool_decide (name ≠ current)
  then modify (add_request (ChangePresence active_polls total servers));;
       modify (set_activity_name name)
  else mret tt.

(** Paul.close_poll_now *)
Definition Paul_close_poll_now (poll : Z) (message : option Z) : M World unit :=
  with_poll poll Poll_close;;
  Paul_update_poll_message poll message;;
  modify (fun w => set_closed_poll_count (closed_poll_count w + 1) w);;
  Paul_set_presence.

(** A coroutine at its first [await asyncio.sleep(..)]: either it returned
    before reaching one, or it sleeps and has the rest still to run. *)
Inductive suspended : Type :=
| Finished
| Sleeping (seconds : Z) (resume : M World unit).

(** Paul.__poll_close_task, up to its sleep *)
Definition Paul_poll_close_task (poll : Z) (message : option Z) : M World suspended :=
  p ← the_poll poll;
  match expires p with
  | None => mret Finished
  | Some e =>
      t ← gets now;
      mret (Sleeping (e - t) (Paul_close_poll_now poll message))
  end.

(** Paul.new_poll *)
Definition Paul_new_poll (params : PollCommandParams.t) (author_id message : Z)
    : M World unit :=
  try_except
    (poll ← Poll_create_poll params author_id message;
     modify (fun w => set_total_poll_count (total_poll_count w + 1) w);;
     Paul_update_poll_message poll (Some message);;
     Paul_set_presence;;
     modify (add_task (SpawnPollCloseTask poll)))
    is_RuntimeError
    (fun e =>
       message_edit message
         (SomethingWentWrongEmbed (PollCommandParams.question params)
            match e with RuntimeError reason => reason | _ => EmptyString end)).

(** params.expires += params.repeat_time: adding a timedelta to None is a
    TypeError. *)
Definition advance_expires (params : PollCommandParams.t) (t : Z)
    : M World PollCommandParams.t :=
  match PollCommandParams.expires params with
  | Some e => mret (PollCommandParams.set_expires (Some (e + t)) params)
  | None => raise TypeError
  end.

(** The while loop of Paul.repeat_poll; [None] when [fuel] iterations were
    not enough for it to end. *)
Fixpoint repeat_poll_loop (fuel : nat) (params : PollCommandParams.t)
    (author_id message : Z) (repeat_count : Z) : M World (option unit) :=
  match fuel with
  | O => mret None
  | S fuel' =>
      if match PollCommandParams.repeat_count params with
         | None => true
         | Some n => repeat_count <? n
         end
      then
        Paul_new_poll params author_id message;;
        match PollCommandParams.repeat_time params with
        | None => mret (Some tt)
        | Some t =>
            let repeat_count := repeat_count + 1 in
            params ← advance_expires params t;
            sleep t;;
            repeat_poll_loop fuel' params author_id message repeat_count
        end
      else mret (Some tt)
  end.

(** Paul.repeat_poll *)
Definition Paul_repeat_poll (fuel : nat) (params : PollCommandParams.t)
    (author_id message : Z) : M World (option unit) :=
  match PollCommandParams.repeat_time params, PollCommandParams.repeat_count params with
  | None, Some _ => message_edit message RepeatTimeNeededEmbed;; mret (Some tt)
  | _, _ => repeat_poll_loop fuel params author_id message 0
  end.

(** Paul.add_poll_option; [message] is inter.message. *)
Definition Paul_add_poll_option (poll : Z) (label : string) (author_id : Z)
    (message : option Z) : M World unit :=
  p ← the_poll poll;
  if Z.of_nat (length (options p)) =? MAX_OPTIONS
  then raise (FriendlyError CannotAddOptions)
  else
    t ← gets now;
    with_poll poll (Poll_new_option t label author_id);;
    Paul_update_poll_message poll message.

(** Paul.toggle_vote; an Option object is its poll and its position there,
    and option.poll is the first of the two. *)
Definition Paul_toggle_vote (option : Z * nat) (voter_id : Z) : M World unit :=
  with_poll (fst option) (application_Option_toggle_vote (snd option) voter_id);;
  Paul_update_poll_message (fst option) None.

Definition lift {S A} (r : res A) : M S A := fun s => (r, s).

(** inter.response.send_message(embed=..) and inter.original_message() *)
Definition send_message (e : embed) : M World Z :=
  message ← gets message_serial;
  modify (set_message_serial (message + 1));;
  modify (add_request (SendMessage message e));;
  mret message.

(** The slash command [poll].  The library runs the converters of the
    parameters, in order, before the body: [question] goes through
    length_bound_str(254) and [options], when given, through
    parse_options(sep="|"); the other parameters arrive converted. *)
Definition Paul_poll (author_id : Z) (question : string) (options : option string)
    (expires : option Z) (allow_multiple_votes : bool)
    (allowed_vote_viewers allowed_editors allowed_voters : list Mention)
    (repeat_time repeat_count : option Z) : M World unit :=
  question ← lift (length_bound_str 254 0 question);
  options ← match options with
            | Some raw => lift (parse_options "|" raw)
            | None => mret ["Yes"%string; "No"%string]
            end;
  let params :=
    PollCommandParams.Build_t question options expires allow_multiple_votes
      allowed_vote_viewers allowed_editors allowed_voters repeat_time repeat_count in
  message ← send_message (LoadingEmbed question);
  modify (add_task (SpawnRepeatPoll params author_id message)).

(** ** Predicates of the specification *)

(** self.__votes.discard(voter_id) and self.__votes.add(voter_id), as
    functions on the object. *)
Definition discard_vote (voter_id : Z) : Option -> Option :=
  with_votes (fun vs => vs ∖ {[ voter_id ]}).

Definition cast_vote (voter_id : Z) : Option -> Option :=
  with_votes (fun vs => {[ voter_id ]} ∪ vs).

(** What toggle_vote, invoked twice on one option, leaves a sibling of that
    option with. *)
Definition sibling_after (multi : bool) (v : Z) (o : Option) : Option :=
  if multi then o else discard_vote v o.

(** Section 3, invariant of a poll that disallows multiple votes: no voter id
    is in the vote set of more than one of its options. *)
Definition single_vote (p : Poll) : Prop :=
  forall i j oi oj v,
    options p !! i = Some oi -> options p !! j = Some oj ->
    v ∈ votes oi -> v ∈ votes oj -> i = j.

(** The vote mutations of the aggregate. *)
Inductive vote_mutation : Type :=
| AddVote (self : nat) (voter_id : Z)
| RemoveVote (self : nat) (voter_id : Z)
| ToggleVote (self : nat) (voter_id : Z)
| RemoveVotesFrom (voter_id : Z).

Definition run_mutation (m : vote_mutation) : M Agg unit :=
  match m with
  | AddVote self v => Option_add_vote self v
  | RemoveVote self v => Option_remove_vote self v
  | ToggleVote self v => Option_toggle_vote self v
  | RemoveVotesFrom v => Poll_remove_votes_from v
  end.

(** The option a mutation is invoked on exists in a poll of [n] options. *)
Definition targets_within (n : nat) (m : vote_mutation) : Prop :=
  match m with
  | AddVote self _ | RemoveVote self _ | ToggleVote self _ => (self < n)%nat
  | RemoveVotesFrom _ => True
  end.

(** A poll of two options, Tea holding the vote of voter 7; single-vote or
    not. *)
Definition two_options (single : bool) : Agg :=
  {| store := Build_Store [] [] {[ (10, 7) ]} 2 12;
     poll := Build_Poll 1 "Tea or coffee?"
               [Option_init 10 "Tea" [7] None; Option_init 11 "Coffee" [] None]
               None (negb single) [] [] [] 5 100 false |}.

(** The errors that report a poll at capacity or closed. *)
Definition is_capacity_error (e : exn) : bool :=
  match e with
  | FriendlyError CannotAddOptions | CapacityError => true
  | _ => false
  end.

(** A label the user can type between two pipes: it holds no pipe. *)
Fixpoint no_pipe (l : string) : bool :=
  match l with
  | EmptyString => true
  | String c l' => negb (Ascii.eqb c "|") && no_pipe l'
  end.

(** A bot that has just started, with nothing stored, in one server. *)
Definition empty_store : Store := Build_Store [] [] ∅ 1 1.

Definition fresh_world : World :=
  Build_World empty_store ∅ 0 0 None 1 0 true [] [] 1.

(** The values of a poll command: a question, its labels, an expiry and a
    repeat configuration. *)
Definition sample_params (labels : list string) (expires repeat_time repeat_count : option Z)
    : PollCommandParams.t :=
  PollCommandParams.Build_t "Tea or coffee?" labels expires false [] [] []
    repeat_time repeat_count.

Definition letters : list string :=
  ["a"; "b"; "c"; "d"; "e"; "f"; "g"; "h"; "i"; "j"; "k"; "l"; "m"; "n"; "o";
   "p"; "q"; "r"; "s"; "t"; "u"; "v"; "w"; "x"; "y"; "z"]%string.

(** The world after one poll with the given labels and expiry was created
    by author 5 on message 100. *)
Definition world_with_poll (labels : list string) (expires : option Z) : World :=
  snd (Paul_new_poll (sample_params labels expires None None) 5 100 fresh_world).

(** What Paul.__set_presence leaves behind. *)
Definition presence_effect (w : World) : World :=
  let active_polls := total_poll_count w - closed_poll_count w in
  let name := Some (active_polls, total_poll_count w, guilds w) in
  if bool_decide (name <> activity_name w)
  then set_activity_name name
         (add_request (ChangePresence active_polls (total_poll_count w) (guilds w)) w)
  else w.

Definition is_ChangePresence (r : request) : Prop :=
  match r with ChangePresence _ _ _ => True | _ => False end.

(** The rows of [k] polls created one after the other, the first with id
    [serial] and expiry [e], each next one [t] later than the one before. *)
Fixpoint repeated_rows (k : nat) (serial : Z) (question : string) (e t : Z)
    : list PollRow :=
  match k with
  | O => []
  | S k' =>
      {| prow_id := serial; prow_question := question;
         prow_expires := Some e; prow_closed := false |}
      :: repeated_rows k' (serial + 1) question (e + t) t
  end.

(** The Poll object behind a reference that is known to be alive. *)
Definition blank_poll : Poll := Build_Poll 0 "" [] None false [] [] [] 0 0 false.

Definition poll_at (w : World) (ref : Z) : Poll := default blank_poll (polls w !! ref).

(** A poll that expires at 100, created at time 0; the same world at time 50
    after the poll was closed by hand; and that world at time 100, after the
    close task of the poll woke up. *)
Definition scheduled_world : World := world_with_poll ["Tea"; "Coffee"]%string (Some 100).

Definition closed_by_hand_world : World :=
  snd (Paul_close_poll_now 1 None (set_now 50 scheduled_world)).

Definition woken_world : World :=
  snd (Paul_close_poll_now 1 None (set_now 100 closed_by_hand_world)).

(** ** poll/option.py: loading the options of a poll *)

(** Option.get_voters: the set comprehension over
    sql.select.many(pool, "votes", ("voter_id",), option_id=option_id) *)
Definition Option_get_voters (option_id : Z) (st : Store) : gset Z :=
  set_map (C := gset (Z * Z)) (D := gset Z) snd
    (filter (fun r : Z * Z => r.1 = option_id) (vote_rows st)).

(** Option.get_options_of_poll: one Option per record of
    sql.select.many(pool, "options", ("id", "label", "author"), poll_id=poll_id),
    with the voters that get_voters fetches for it. *)
Definition Option_get_options_of_poll (poll_id : Z) (st : Store) : list Option :=
  map (fun r => Option_init (row_id r) (row_label r)
                  (elements (Option_get_voters (row_id r) st)) (row_author r))
    (List.filter (fun r => row_poll_id r =? poll_id) (option_rows st)).

(** The rows of the votes of one voter on the given options. *)
Definition voter_rows (v : Z) (os : list Option) : gset (Z * Z) :=
  list_to_set ((fun o => (option_id o, v)) <$> os).

Definition delete_votes (D : gset (Z * Z)) (st : Store) : Store :=
  set_vote_rows (fun rows => rows ∖ D) st.

(** The row that stands for an option of the poll [poll_id]. *)
Definition row_of (poll_id : Z) (o : Option) : OptionRow :=
  {| row_id := option_id o; row_label := label o;
     row_poll_id := poll_id; row_author := author_id o |}.

(** Section 3, invariant of an option: a voter id is in the set exactly when
    the store holds the row of that vote. *)
Definition votes_mirrored (s : Agg) : Prop :=
  forall o v, o ∈ options (poll s) ->
    v ∈ votes o <-> (option_id o, v) ∈ vote_rows (store s).

(** The option rows of the poll are its options, in order. *)
Definition options_mirrored (s : Agg) : Prop :=
  List.filter (fun r => row_poll_id r =? poll_id (poll s)) (option_rows (store s))
    = map (row_of (poll_id (poll s))) (options (poll s)).

Definition distinct_ids (p : Poll) : Prop := NoDup (option_id <$> options p).

(** The voter a mutation acts for. *)
Definition mutation_voter (m : vote_mutation) : Z :=
  match m with
  | AddVote _ v | RemoveVote _ v | ToggleVote _ v | RemoveVotesFrom v => v
  end.


(** The poll of [two_options], with its two option rows in the store. *)
Definition stored_two_options (single : bool) : Agg :=
  {| store := Build_Store []
                [row_of 1 (Option_init 10 "Tea" [] None);
                 row_of 1 (Option_init 11 "Coffee" [] None)]
                {[ (10, 7) ]} 2 12;
     poll := poll (two_options single) |}.

(** [o'] is [o] but, at most, for the vote of [v]. *)
Definition same_but_for (v : Z) (o o' : Option) : Prop :=
  option_id o' = option_id o /\ label o' = label o /\
  author_id o' = author_id o /\
  forall u, u <> v -> u ∈ votes o' <-> u ∈ votes o.

(** ** converters.py: parse_expires *)

Definition is_digit (c : ascii) : bool :=
  let n := N_of_ascii c in ((48 <=? n) && (n <=? 57))%N.

(** One of the letters d, h, m, s. *)
Definition is_unit (c : ascii) : bool :=
  Ascii.eqb c "d" || Ascii.eqb c "h" || Ascii.eqb c "m" || Ascii.eqb c "s".

(** RELATIVE_DATE_PARSE_FIX.sub(r"\1 \2", expires), the pattern being
    ([dhms])(\d): a space goes between each unit letter and the digit
    that follows it, and the search goes on after that digit. *)
Fixpoint relative_date_parse_fix (s : string) : string :=
  match s with
  | EmptyString => EmptyString
  | String c s' =>
      match s' with
      | EmptyString => String c EmptyString
      | String d s'' =>
          if is_unit c && is_digit d
          then String c (String " " (String d (relative_date_parse_fix s'')))
          else String c (relative_date_parse_fix s')
      end
  end.




(** Some unit letter of [s] stands directly before a digit. *)
Fixpoint unit_before_digit (s : string) : bool :=
  match s with
  | EmptyString => false
  | String c s' =>
      match s' with
      | EmptyString => false
      | String d _ => (is_unit c && is_digit d) || unit_before_digit s'
      end
  end.

Fixpoint without_spaces (s : string) : string :=
  match s with
  | EmptyString => EmptyString
  | String c s' =>
      if Ascii.eqb c " " then without_spaces s' else String c (without_spaces s')
  end.

(** ** paul.py: on_ready and __load_polls *)

(** The bot with what the World leaves out: the views it has registered
    (one PollView per poll, by the poll's id) and the flag of on_ready. *)
Record Bot := {
  world : World;
  views : list Z;
  on_ready_triggered : bool
}.

Definition in_world {A} (m : M World A) : M Bot A := fun b =>
  let '(r, w) := m (world b) in
  (r, {| world := w; views := views b; on_ready_triggered := on_ready_triggered b |}).

(** self.add_view(PollView(self, poll)) *)
Definition add_view (poll : Z) : M Bot unit :=
  modify (fun b => {| world := world b; views := views b ++ [poll];
                      on_ready_triggered := on_ready_triggered b |}).

(** The Poll object that fetch_polls built comes alive in memory. *)
Definition register_poll (p : Poll) : M World unit :=
  modify (fun w => set_agg (poll_id p) {| store := w_store w; poll := p |} w).

(** Paul.__load_polls; [fetched] is what Poll.fetch_polls() returns.  The
    logger call is not modelled. *)
Definition Paul_load_polls (fetched : list Poll) : M Bot unit :=
  for_each fetched (fun p =>
    in_world (register_poll p);;
    in_world (modify (fun w => set_total_poll_count (total_poll_count w + 1) w));;
    t ← in_world (gets now);
    (if Poll_is_opened p t
     then in_world (modify (add_task (SpawnPollCloseTask (poll_id p))))
     else in_world (modify (fun w =>
            set_closed_poll_count (closed_poll_count w + 1) w)));;
    add_view (poll_id p)).

(** The event handler on_ready. *)
Definition Paul_on_ready (fetched : list Poll) : M Bot unit :=
  triggered ← gets on_ready_triggered;
  if negb triggered
  then Paul_load_polls fetched;;
       in_world Paul_set_presence;;
       modify (fun b => {| world := world b; views := views b;
                           on_ready_triggered := true |})
  else mret tt.

(** A bot that has not seen on_ready yet. *)
Definition fresh_bot : Bot :=
  {| world := fresh_world; views := []; on_ready_triggered := false |}.

(** ** converters.py: parse_mentions *)

(** The longest run of decimal digits at the head of [s], and what follows
    it. *)
Fixpoint span_digits (s : string) : string * string :=
  match s with
  | EmptyString => (EmptyString, EmptyString)
  | String c s' =>
      if is_digit c
      then let '(ds, rest) := span_digits s' in (String c ds, rest)
      else (EmptyString, s)
  end.

(** (\d+)> at the head of [s]: the digits matched. *)
Definition match_digits (s : string) : option string :=
  match span_digits s with
  | (String c ds, String ">" _) => Some (String c ds)
  | _ => None
  end.

(** MENTION_REGEX, <(@[!&])?(\d+)>, matched at the head of [s]: its two
    groups, the first one empty when it took no part. *)
Definition match_mention (s : string) : option (string * string) :=
  match s with
  | String "<" r =>
      match r with
      | String "@" (String "!" r') => pair "@!"%string <$> match_digits r'
      | String "@" (String "&" r') => pair "@&"%string <$> match_digits r'
      | _ => pair EmptyString <$> match_digits r
      end
  | _ => None
  end.

(** MENTION_REGEX.findall(string): the matches from left to right, the
    search going on after each match; [skip] counts the characters of a
    match still to be passed over. *)
Fixpoint findall_mentions (skip : nat) (s : string) : list (string * string) :=
  match s with
  | EmptyString => []
  | String c s' =>
      match skip with
      | S k => findall_mentions k s'
      | O =>
          match match_mention s with
          | Some (group1, group2) =>
              (group1, group2)
              :: findall_mentions (String.length group1 + String.length group2 + 1) s'
          | None => findall_mentions O s'
          end
      end
  end.

(** int(digits) *)
Definition digit_value (c : ascii) : Z := Z.of_N (N_of_ascii c) - 48.

Definition int_of_digits (ds : string) : Z :=
  fold_left (fun acc c => 10 * acc + digit_value c) (list_ascii_of_string ds) 0.

(** str(n), as an f-string formats an int *)
Definition str_of_int (n : Z) : string := NilZero.string_of_int (Z.to_int n).

(** string.replace(old, new), for a non-empty [old] *)
Definition str_replace (s old new : string) : string :=
  String.concat new (split_from old 0 s).

(** parse_mentions; [default_role] is inter.guild.default_role.id, when
    there is a guild. *)
Definition parse_mentions (default_role : option Z) (s : string) : list Mention :=
  let s :=
    match default_role with
    | Some id =>
        str_replace s "@everyone"
          (String.append "<@&" (String.append (str_of_int id) ">"))
    | None => s
    end in
  map (fun tup => {| kind := fst tup; mention_id := int_of_digits (snd tup) |})
    (findall_mentions 0 s).


Definition mention_kind (k : string) : Prop :=
  k = EmptyString \/ k = "@!"%string \/ k = "@&"%string.

Fixpoint no_angle (s : string) : bool :=
  match s with
  | EmptyString => true
  | String c s' => negb (Ascii.eqb c "<") && no_angle s'
  end.

Fixpoint all_digits (s : string) : bool :=
  match s with
  | EmptyString => true
  | String c s' => is_digit c && all_digits s'
  end.

(** ** The monad *)

Lemma bind_Ok {S A B} (m : M S A) (f : A -> M S B) s a s' :
  m s = (Ok a, s') -> (m ≫= f) s = f a s'.
Proof. intros H. unfold mbind, M_bind. by rewrite H. Qed.

Lemma bind_Raise {S A B} (m : M S A) (f : A -> M S B) s e s' :
  m s = (Raise e, s') -> (m ≫= f) s = (Raise e, s').
Proof. intros H. unfold mbind, M_bind. by rewrite H. Qed.

(** ** Records that are rebuilt field by field *)

Lemma with_votes_id f o : f (__votes o) = __votes o -> with_votes f o = o.
Proof. intros H. destruct o; unfold with_votes; simpl in *. by rewrite H. Qed.

Lemma set_options_id f p : f (options p) = options p -> set_options f p = p.
Proof. intros H. destruct p; unfold set_options; simpl in *. by rewrite H. Qed.

Lemma set_options_set_options f g p :
  set_options f (set_options g p) = set_options (fun os => f (g os)) p.
Proof. reflexivity. Qed.

Lemma votes_discard_vote v o : votes (discard_vote v o) = votes o ∖ {[ v ]}.
Proof. reflexivity. Qed.

Lemma votes_cast_vote v o : votes (cast_vote v o) = {[ v ]} ∪ votes o.
Proof. reflexivity. Qed.

Lemma discard_vote_absent v o : v ∉ votes o -> discard_vote v o = o.
Proof. intros H. apply with_votes_id. unfold votes in H. set_solver. Qed.

(** ** Option.remove_vote, Poll.remove_votes_from, Option.add_vote *)

Lemma the_option_run self s o :
  options (poll s) !! self = Some o -> the_option self s = (Ok o, s).
Proof.
  intros H. unfold the_option, mbind, M_bind, gets. simpl.
  rewrite H. reflexivity.
Qed.

Lemma Option_remove_vote_run self v s o :
  options (poll s) !! self = Some o ->
  Option_remove_vote self v s =
    (Ok tt, {| store := sql_delete_vote (option_id o) v (store s);
               poll := set_options (alter (discard_vote v) self) (poll s) |}).
Proof.
  intros H. unfold Option_remove_vote.
  by rewrite (bind_Ok _ _ _ _ _ (the_option_run _ _ _ H)).
Qed.

(** The loop of remove_votes_from over the positions [k, k+n). *)
Lemma remove_votes_loop v n : forall k s,
  (k + n <= length (options (poll s)))%nat ->
  exists st' os',
    for_each (seq k n) (fun i => Option_remove_vote i v) s =
      (Ok tt, {| store := st'; poll := set_options (fun _ => os') (poll s) |}) /\
    length os' = length (options (poll s)) /\
    forall i, os' !! i =
      if bool_decide (k <= i < k + n)%nat
      then discard_vote v <$> options (poll s) !! i
      else options (poll s) !! i.
Proof.
  induction n as [|n IH]; intros k s Hk.
  - exists (store s), (options (poll s)). split; [|split; [done|]].
    + simpl. unfold mret, M_ret. destruct s as [st p]. simpl.
      by rewrite set_options_id.
    + intros i. rewrite bool_decide_eq_false_2; [done | lia].
  - destruct (lookup_lt_is_Some_2 (options (poll s)) k) as [o Ho]; [lia|].
    simpl. rewrite (bind_Ok _ _ _ _ _ (Option_remove_vote_run _ v _ _ Ho)).
    set (s1 := {| store := _; poll := _ |}).
    destruct (IH (Datatypes.S k) s1) as (st' & os' & Hrun & Hlen & Hlook).
    { subst s1. simpl. rewrite length_alter. lia. }
    exists st', os'. split; [|split].
    + rewrite Hrun. subst s1. simpl. by rewrite set_options_set_options.
    + rewrite Hlen. subst s1. simpl. by rewrite length_alter.
    + intros i. rewrite Hlook. subst s1. simpl.
      destruct (decide (i = k)) as [->|Hne].
      * rewrite bool_decide_eq_false_2 by lia.
        rewrite bool_decide_eq_true_2 by lia.
        by rewrite list_lookup_alter_eq.
      * rewrite list_lookup_alter_ne by done.
        destruct (decide (Datatypes.S k <= i < Datatypes.S k + n)%nat).
        -- rewrite !bool_decide_eq_true_2 by lia. done.
        -- rewrite !bool_decide_eq_false_2 by lia. done.
Qed.

Lemma Poll_remove_votes_from_run v s :
  exists st',
    Poll_remove_votes_from v s =
      (Ok tt, {| store := st';
                 poll := set_options (fmap (discard_vote v)) (poll s) |}).
Proof.
  destruct (remove_votes_loop v (length (options (poll s))) 0%nat s)
    as (st' & os' & Hrun & Hlen & Hlook); [lia|].
  exists st'. unfold Poll_remove_votes_from, mbind, M_bind, gets.
  rewrite Hrun. do 2 f_equal.
  destruct (poll s) as [? ? os ? ? ? ? ? ? ? ?]; unfold set_options; simpl in *.
  f_equal. apply list_eq. intros i. rewrite Hlook, list_lookup_fmap.
  destruct (decide (i < length os)%nat).
  - by rewrite bool_decide_eq_true_2 by lia.
  - rewrite bool_decide_eq_false_2 by lia.
    rewrite lookup_ge_None_2 by lia. done.
Qed.

Lemma Option_add_vote_run self v s o :
  options (poll s) !! self = Some o ->
  exists st',
    Option_add_vote self v s =
      (Ok tt,
       {| store := sql_insert_vote (option_id o) v st';
          poll := set_options
                    (fun os => alter (cast_vote v) self
                       (if allow_multiple_votes (poll s) then os
                        else discard_vote v <$> os))
                    (poll s) |}).
Proof.
  intros H. unfold Option_add_vote.
  rewrite (bind_Ok _ _ _ _ _ (the_option_run _ _ _ H)).
  unfold gets at 1. unfold mbind at 1, M_bind at 1.
  destruct (allow_multiple_votes (poll s)) eqn:Hm; simpl.
  - exists (store s). reflexivity.
  - destruct (Poll_remove_votes_from_run v s) as [st' Hrun].
    exists st'. rewrite (bind_Ok _ _ _ _ _ Hrun). reflexivity.
Qed.

Lemma Option_toggle_vote_run self v s o :
  options (poll s) !! self = Some o ->
  Option_toggle_vote self v s =
    if bool_decide (v ∈ votes o)
    then Option_remove_vote self v s
    else Option_add_vote self v s.
Proof.
  intros H. unfold Option_toggle_vote.
  rewrite (bind_Ok _ _ _ _ _ (the_option_run _ _ _ H)).
  by destruct (bool_decide _).
Qed.

Lemma sql_delete_vote_twice oid v st :
  sql_delete_vote oid v (sql_delete_vote oid v st) = sql_delete_vote oid v st.
Proof.
  unfold sql_delete_vote, set_vote_rows. simpl. f_equal.
  apply set_eq. intros x. rewrite !elem_of_difference. tauto.
Qed.

Lemma sql_delete_vote_absent oid v st :
  (oid, v) ∉ vote_rows st -> sql_delete_vote oid v st = st.
Proof.
  intros H. destruct st as [? ? rows ? ?].
  unfold sql_delete_vote, set_vote_rows. simpl in *. f_equal.
  apply set_eq. intros x. rewrite elem_of_difference, elem_of_singleton.
  split; [tauto|]. intros Hx. split; [done|]. by intros ->.
Qed.

(** C9: for every option and every voter id that is not in the option's vote
    set, remove_vote raises nothing and leaves the in-memory state of the
    poll as it was, so the option's vote set and vote_count are unchanged;
    a second call changes nothing at all, and when the store holds no row
    for the pair either, the first call changes nothing at all. *)
Theorem remove_vote_of_non_voter_is_noop s self o v :
  options (poll s) !! self = Some o ->
  v ∉ votes o ->
  exists s',
    Option_remove_vote self v s = (Ok tt, s') /\
    poll s' = poll s /\
    (exists o', options (poll s') !! self = Some o' /\
                votes o' = votes o /\ vote_count o' = vote_count o) /\
    Option_remove_vote self v s' = (Ok tt, s') /\
    ((option_id o, v) ∉ vote_rows (store s) -> s' = s).
Proof.
  intros Ho Hv.
  assert (Hp : set_options (alter (discard_vote v) self) (poll s) = poll s).
  { apply set_options_id. apply list_eq. intros i.
    rewrite list_lookup_alter. case_decide as Hi; [subst i|done].
    rewrite Ho. simpl. by rewrite discard_vote_absent. }
  pose proof (Option_remove_vote_run self v s o Ho) as Hrun. rewrite Hp in Hrun.
  exists {| store := sql_delete_vote (option_id o) v (store s); poll := poll s |}.
  simpl. split; [done|]. split; [done|]. split; [by exists o|]. split.
  - rewrite (Option_remove_vote_run self v _ o) by done.
    simpl. by rewrite sql_delete_vote_twice, Hp.
  - intros Hrow. rewrite sql_delete_vote_absent by done. by destruct s.
Qed.

Lemma remove_vote_of_non_voter_is_noop_witness :
  exists s',
    Option_remove_vote 1 9 (two_options true) = (Ok tt, s') /\
    poll s' = poll (two_options true).
Proof.
  destruct (remove_vote_of_non_voter_is_noop (two_options true) 1
              (Option_init 11 "Coffee" [] None) 9) as (s' & H1 & H2 & _).
  - reflexivity.
  - vm_compute. set_solver.
  - exists s'. split; [exact H1 | exact H2].
Defined.

(** ** The single-vote invariant *)

Lemma allow_multiple_votes_set_options f p :
  allow_multiple_votes (set_options f p) = allow_multiple_votes p.
Proof. reflexivity. Qed.

Lemma options_set_options f p : options (set_options f p) = f (options p).
Proof. reflexivity. Qed.

(** Vote sets that only shrink keep the invariant. *)
Lemma single_vote_shrink p os' :
  single_vote p ->
  (forall i o', os' !! i = Some o' ->
     exists o, options p !! i = Some o /\ votes o' ⊆ votes o) ->
  single_vote (set_options (fun _ => os') p).
Proof.
  intros Hinv Hsub i j oi oj v Hi Hj Hvi Hvj.
  rewrite options_set_options in Hi, Hj.
  destruct (Hsub _ _ Hi) as (oi' & Hi' & Hsi).
  destruct (Hsub _ _ Hj) as (oj' & Hj' & Hsj).
  apply (Hinv i j oi' oj' v); auto.
Qed.

Lemma lookup_discard_all v (os : list Option) i o' :
  (discard_vote v <$> os) !! i = Some o' ->
  exists o, os !! i = Some o /\ votes o' = votes o ∖ {[ v ]}.
Proof.
  rewrite list_lookup_fmap. destruct (os !! i) as [o|]; simpl; [|done].
  intros [= <-]. by exists o.
Qed.

Lemma lookup_alter_discard v (os : list Option) self i o' :
  alter (discard_vote v) self os !! i = Some o' ->
  exists o, os !! i = Some o /\
    votes o' = if decide (i = self) then votes o ∖ {[ v ]} else votes o.
Proof.
  rewrite list_lookup_alter. destruct (decide (self = i)) as [->|Hne].
  - destruct (os !! i) as [o|]; simpl; [|done].
    intros [= <-]. exists o. by rewrite decide_True.
  - intros H. exists o'. by rewrite decide_False.
Qed.

(** The options of a single-vote poll after add_vote on [self]. *)
Lemma lookup_after_add v (os : list Option) self i o' :
  alter (cast_vote v) self (discard_vote v <$> os) !! i = Some o' ->
  exists o, os !! i = Some o /\
    votes o' = if decide (i = self)
               then {[ v ]} ∪ (votes o ∖ {[ v ]})
               else votes o ∖ {[ v ]}.
Proof.
  rewrite list_lookup_alter, !list_lookup_fmap.
  destruct (decide (self = i)) as [->|Hne].
  - destruct (os !! i) as [o|]; simpl; [|done].
    intros [= <-]. exists o. by rewrite decide_True.
  - destruct (os !! i) as [o|]; simpl; [|done].
    intros [= <-]. exists o. by rewrite decide_False.
Qed.

Lemma single_vote_after_add v p self :
  single_vote p ->
  single_vote
    (set_options (fun os => alter (cast_vote v) self (discard_vote v <$> os)) p).
Proof.
  intros Hinv i j oi oj u Hi Hj Hui Huj.
  rewrite options_set_options in Hi, Hj.
  destruct (lookup_after_add _ _ _ _ _ Hi) as (oi' & Hi' & Ei).
  destruct (lookup_after_add _ _ _ _ _ Hj) as (oj' & Hj' & Ej).
  rewrite Ei in Hui. rewrite Ej in Huj.
  destruct (decide (u = v)) as [->|Hne].
  - destruct (decide (i = self)), (decide (j = self)); try congruence;
      set_solver.
  - apply (Hinv i j oi' oj' u); auto.
    + destruct (decide (i = self)); set_solver.
    + destruct (decide (j = self)); set_solver.
Qed.

(** One mutation, on an option that exists: it returns, the poll keeps its
    shape, and the invariant of a single-vote poll survives. *)
Lemma mutation_step m s :
  targets_within (length (options (poll s))) m ->
  allow_multiple_votes (poll s) = false ->
  single_vote (poll s) ->
  exists s',
    run_mutation m s = (Ok tt, s') /\
    length (options (poll s')) = length (options (poll s)) /\
    allow_multiple_votes (poll s') = false /\
    single_vote (poll s').
Proof.
  intros Hm Hsingle Hinv.
  assert (Hrem : forall self v o, options (poll s) !! self = Some o ->
    exists s', Option_remove_vote self v s = (Ok tt, s') /\
      length (options (poll s')) = length (options (poll s)) /\
      allow_multiple_votes (poll s') = false /\ single_vote (poll s')).
  { intros self v o Ho. eexists. split; [by apply Option_remove_vote_run|].
    simpl. rewrite length_alter. split; [done|]. split; [done|].
    apply (single_vote_shrink (poll s) _ Hinv). intros i o' Hi.
    destruct (lookup_alter_discard _ _ _ _ _ Hi) as (o1 & Ho1 & E).
    exists o1. split; [done|]. rewrite E. case_decide; set_solver. }
  assert (Hadd : forall self v o, options (poll s) !! self = Some o ->
    exists s', Option_add_vote self v s = (Ok tt, s') /\
      length (options (poll s')) = length (options (poll s)) /\
      allow_multiple_votes (poll s') = false /\ single_vote (poll s')).
  { intros self v o Ho.
    destruct (Option_add_vote_run self v s o Ho) as [st' Hrun].
    rewrite Hsingle in Hrun. eexists. split; [exact Hrun|]. simpl.
    rewrite length_alter, length_fmap. split; [done|]. split; [done|].
    by apply single_vote_after_add. }
  destruct m as [self v|self v|self v|v]; simpl in *.
  - destruct (lookup_lt_is_Some_2 _ _ Hm) as [o Ho]. eauto.
  - destruct (lookup_lt_is_Some_2 _ _ Hm) as [o Ho]. eauto.
  - destruct (lookup_lt_is_Some_2 _ _ Hm) as [o Ho].
    rewrite (Option_toggle_vote_run _ _ _ _ Ho).
    destruct (bool_decide _); eauto.
  - destruct (Poll_remove_votes_from_run v s) as [st' Hrun].
    eexists. split; [exact Hrun|]. simpl. rewrite length_fmap.
    split; [done|]. split; [done|].
    apply (single_vote_shrink (poll s) _ Hinv). intros i o' Hi.
    destruct (lookup_discard_all _ _ _ _ Hi) as (o1 & Ho1 & E).
    exists o1. split; [done|]. rewrite E. set_solver.
Qed.

(** C1: in a poll with allow_multiple_votes = false whose options hold each
    voter at most once, add_vote(voter) on an option returns with the voter
    in the vote set of that option and of no other option of the poll (the
    votes on the other options were removed first), with the row of the vote
    in the store, and with the invariant intact; and after any sequence of
    vote mutations (add_vote, remove_vote, toggle_vote, remove_votes_from)
    on options of the poll, each run to completion, every voter is still in
    at most one vote set. *)
Theorem single_vote_preserved_by_vote_mutations s :
  allow_multiple_votes (poll s) = false ->
  single_vote (poll s) ->
  (forall self voter o,
     options (poll s) !! self = Some o ->
     exists s',
       Option_add_vote self voter s = (Ok tt, s') /\
       (forall j oj, options (poll s') !! j = Some oj ->
                     voter ∈ votes oj <-> j = self) /\
       (exists o', options (poll s') !! self = Some o' /\ voter ∈ votes o') /\
       (option_id o, voter) ∈ vote_rows (store s') /\
       single_vote (poll s')) /\
  (forall ms,
     Forall (targets_within (length (options (poll s)))) ms ->
     exists s',
       for_each ms run_mutation s = (Ok tt, s') /\
       allow_multiple_votes (poll s') = false /\
       single_vote (poll s')).
Proof.
  intros Hsingle Hinv. split.
  - intros self voter o Ho.
    destruct (Option_add_vote_run self voter s o Ho) as [st' Hrun].
    rewrite Hsingle in Hrun. eexists. split; [exact Hrun|]. simpl.
    split; [|split; [|split]].
    + intros j oj Hj.
      destruct (lookup_after_add _ _ _ _ _ Hj) as (o1 & _ & E). rewrite E.
      case_decide; set_solver.
    + rewrite list_lookup_alter_eq, list_lookup_fmap, Ho. simpl.
      eexists. split; [done|]. rewrite votes_cast_vote. set_solver.
    + set_solver.
    + by apply single_vote_after_add.
  - intros ms. revert s Hsingle Hinv.
    induction ms as [|m ms IH]; intros s Hsingle Hinv Hms.
    + exists s. done.
    + inversion Hms as [|? ? Hm Hms']; subst.
      destruct (mutation_step m s Hm Hsingle Hinv)
        as (s1 & Hrun & Hlen & Hsingle1 & Hinv1).
      destruct (IH s1 Hsingle1 Hinv1) as (s' & Hrun' & H').
      { by rewrite Hlen. }
      exists s'. split; [|done].
      simpl. by rewrite (bind_Ok _ _ _ _ _ Hrun).
Qed.

Lemma single_vote_two_options : single_vote (poll (two_options true)).
Proof.
  intros i j oi oj v Hi Hj Hvi Hvj.
  destruct i as [|[|i]], j as [|[|j]]; simpl in *; try done;
    repeat match goal with H : Some _ = Some _ |- _ => injection H as <- end;
    unfold votes in *; simpl in *; set_solver.
Qed.

Lemma single_vote_preserved_by_vote_mutations_witness :
  exists s',
    for_each [ToggleVote 1 7; AddVote 0 9; RemoveVote 1 7; ToggleVote 1 9]
      run_mutation (two_options true) = (Ok tt, s') /\
    single_vote (poll s').
Proof.
  destruct (single_vote_preserved_by_vote_mutations (two_options true))
    as [_ H].
  - reflexivity.
  - exact single_vote_two_options.
  - destruct (H [ToggleVote 1 7; AddVote 0 9; RemoveVote 1 7; ToggleVote 1 9])
      as (s' & Hrun & _ & Hinv).
    + repeat constructor; simpl; lia.
    + exists s'. split; [exact Hrun | exact Hinv].
Defined.

(** ** toggle_vote twice *)

Lemma cast_discard_discard v o :
  v ∈ votes o -> cast_vote v (discard_vote v (discard_vote v o)) = o.
Proof.
  intros H. destruct o as [? ? vs ?].
  unfold cast_vote, discard_vote, with_votes, votes in *. simpl in *.
  f_equal. apply set_eq. intros x.
  rewrite elem_of_union, !elem_of_difference, elem_of_singleton.
  destruct (decide (x = v)) as [->|]; tauto.
Qed.

Lemma cast_discard v o :
  v ∈ votes o -> cast_vote v (discard_vote v o) = o.
Proof.
  intros H. destruct o as [? ? vs ?].
  unfold cast_vote, discard_vote, with_votes, votes in *. simpl in *.
  f_equal. apply set_eq. intros x.
  rewrite elem_of_union, !elem_of_difference, elem_of_singleton.
  destruct (decide (x = v)) as [->|]; tauto.
Qed.

Lemma discard_cast v o :
  v ∉ votes o -> discard_vote v (cast_vote v o) = o.
Proof.
  intros H. destruct o as [? ? vs ?].
  unfold cast_vote, discard_vote, with_votes, votes in *. simpl in *.
  f_equal. apply set_eq. intros x.
  rewrite elem_of_difference, elem_of_union, elem_of_singleton.
  destruct (decide (x = v)) as [->|]; tauto.
Qed.

Lemma discard_cast_discard v o :
  v ∉ votes o -> discard_vote v (cast_vote v (discard_vote v o)) = o.
Proof.
  intros H. rewrite (discard_vote_absent v o) by done. by apply discard_cast.
Qed.

Lemma toggle_vote_twice_run s self voter o :
  options (poll s) !! self = Some o ->
  exists st',
    (Option_toggle_vote self voter;; Option_toggle_vote self voter) s =
      (Ok tt,
       {| store := st';
          poll := set_options
                    (fun os => <[ self := o ]>
                       (sibling_after (allow_multiple_votes (poll s)) voter <$> os))
                    (poll s) |}).
Proof.
  intros Ho.
  assert (Hlen : (self < length (options (poll s)))%nat)
    by (by eapply lookup_lt_Some).
  pose proof (Option_toggle_vote_run _ voter _ _ Ho) as Hfirst.
  destruct (bool_decide (voter ∈ votes o)) eqn:Hin.
  - apply bool_decide_eq_true_1 in Hin.
    rewrite (Option_remove_vote_run self voter s o Ho) in Hfirst.
    rewrite (bind_Ok _ _ _ _ _ Hfirst).
    set (s1 := {| store := _; poll := _ |}).
    assert (Ho1 : options (poll s1) !! self = Some (discard_vote voter o)).
    { subst s1. simpl. by rewrite list_lookup_alter_eq, Ho. }
    rewrite (Option_toggle_vote_run _ _ _ _ Ho1).
    rewrite bool_decide_eq_false_2
      by (rewrite votes_discard_vote; set_solver).
    destruct (Option_add_vote_run self voter s1 _ Ho1) as [st' Hrun].
    exists (sql_insert_vote (option_id (discard_vote voter o)) voter st').
    rewrite Hrun. subst s1. simpl. f_equal. f_equal.
    rewrite set_options_set_options.
    destruct (poll s) as [? ? os ? multi ? ? ? ? ? ?]; unfold set_options;
      simpl in *.
    f_equal. apply list_eq. intros i.
    rewrite list_lookup_alter. destruct (decide (self = i)) as [<-|Hne].
    + rewrite list_lookup_insert_eq by (by rewrite length_fmap).
      destruct multi.
      * rewrite list_lookup_alter_eq, Ho. simpl. by rewrite cast_discard.
      * rewrite list_lookup_fmap, list_lookup_alter_eq, Ho. simpl.
        by rewrite cast_discard_discard.
    + rewrite list_lookup_insert_ne by done. unfold sibling_after.
      destruct multi.
      * rewrite list_lookup_alter_ne by done.
        rewrite list_lookup_fmap. by destruct (os !! i).
      * rewrite !list_lookup_fmap, list_lookup_alter_ne by done. done.
  - apply bool_decide_eq_false_1 in Hin.
    destruct (Option_add_vote_run self voter s o Ho) as [st' Hrun].
    rewrite Hrun in Hfirst. rewrite (bind_Ok _ _ _ _ _ Hfirst).
    set (s1 := {| store := _; poll := _ |}).
    set (o1 := cast_vote voter
                 (if allow_multiple_votes (poll s) then o
                  else discard_vote voter o)).
    assert (Ho1 : options (poll s1) !! self = Some o1).
    { subst s1 o1. simpl. rewrite list_lookup_alter_eq.
      destruct (allow_multiple_votes (poll s)).
      - by rewrite Ho.
      - by rewrite list_lookup_fmap, Ho. }
    rewrite (Option_toggle_vote_run _ _ _ _ Ho1).
    rewrite bool_decide_eq_true_2
      by (subst o1; rewrite votes_cast_vote; set_solver).
    rewrite (Option_remove_vote_run _ _ _ _ Ho1).
    eexists. f_equal. f_equal. subst s1. simpl.
    rewrite set_options_set_options.
    destruct (poll s) as [? ? os ? multi ? ? ? ? ? ?]; unfold set_options;
      simpl in *.
    f_equal. apply list_eq. intros i.
    rewrite list_lookup_alter. destruct (decide (self = i)) as [<-|Hne].
    + rewrite list_lookup_insert_eq by (by rewrite length_fmap).
      rewrite list_lookup_alter_eq. destruct multi.
      * rewrite Ho. simpl. by rewrite discard_cast.
      * rewrite list_lookup_fmap, Ho. simpl. by rewrite discard_cast_discard.
    + rewrite list_lookup_insert_ne by done. unfold sibling_after.
      rewrite list_lookup_alter_ne by done. destruct multi.
      * rewrite list_lookup_fmap. by destruct (os !! i).
      * done.
Qed.

(** C2, amended: toggle_vote invoked twice in succession for the same option
    and voter returns, and leaves the option itself, hence its vote set, as
    it was.  A sibling option is left as it was when the poll allows multiple
    votes; in a single-vote poll it is left without the voter, so the whole
    poll is as it was exactly when the voter held no vote on a sibling. *)
Theorem toggle_vote_twice s self voter o :
  options (poll s) !! self = Some o ->
  exists s',
    (Option_toggle_vote self voter;; Option_toggle_vote self voter) s = (Ok tt, s') /\
    options (poll s') !! self = Some o /\
    (forall j oj,
       j <> self -> options (poll s) !! j = Some oj ->
       exists oj',
         options (poll s') !! j = Some oj' /\
         votes oj' = if allow_multiple_votes (poll s) then votes oj
                     else votes oj ∖ {[ voter ]}) /\
    (allow_multiple_votes (poll s) = true \/
     (forall j oj, j <> self -> options (poll s) !! j = Some oj -> voter ∉ votes oj) ->
     poll s' = poll s).
Proof.
  intros Ho.
  assert (Hlen : (self < length (options (poll s)))%nat)
    by (by eapply lookup_lt_Some).
  destruct (toggle_vote_twice_run s self voter o Ho) as [st' Hrun].
  eexists. split; [exact Hrun|]. simpl. split; [|split].
  - apply list_lookup_insert_eq. by rewrite length_fmap.
  - intros j oj Hj Hoj. rewrite list_lookup_insert_ne by done.
    rewrite list_lookup_fmap, Hoj. simpl. eexists. split; [done|].
    unfold sibling_after. by destruct (allow_multiple_votes (poll s)).
  - intros Hcond. apply set_options_id. apply list_eq. intros i.
    destruct (decide (self = i)) as [<-|Hne].
    + rewrite list_lookup_insert_eq by (by rewrite length_fmap). done.
    + rewrite list_lookup_insert_ne by done. rewrite list_lookup_fmap.
      destruct (options (poll s) !! i) as [oi|] eqn:Hi; [|done]. simpl.
      f_equal. unfold sibling_after.
      destruct Hcond as [->|Hnone]; [done|].
      destruct (allow_multiple_votes (poll s)); [done|].
      apply discard_vote_absent. apply (Hnone i); auto.
Qed.

Lemma toggle_vote_twice_witness :
  exists s',
    (Option_toggle_vote 0 7;; Option_toggle_vote 0 7) (two_options true) = (Ok tt, s') /\
    poll s' = poll (two_options true).
Proof.
  destruct (toggle_vote_twice (two_options true) 0 7
              (Option_init 10 "Tea" [7] None)) as (s' & Hrun & _ & _ & Hsame).
  - reflexivity.
  - exists s'. split; [exact Hrun|]. apply Hsame. right.
    intros [|[|j]] oj Hj Hoj; simpl in *; try done.
    injection Hoj as <-. unfold votes. simpl. set_solver.
Defined.

(** C2 as stated fails: in the single-vote poll whose option Tea holds the
    vote of voter 7, toggling Coffee twice for voter 7 leaves Coffee as it
    was, and Tea without the vote it held. *)
Lemma toggle_twice_loses_sibling_vote :
  fst ((Option_toggle_vote 1 7;; Option_toggle_vote 1 7) (two_options true)) = Ok tt /\
  votes <$> options (poll (two_options true)) = [ {[ 7 ]}; ∅ ] /\
  votes <$> options (poll (snd ((Option_toggle_vote 1 7;; Option_toggle_vote 1 7)
                                  (two_options true)))) = [ ∅; ∅ ].
Proof. vm_compute. done. Qed.

(** ** The accessors votes and vote_count *)

Lemma fresh_loc_unused (h : Heap.heap) : h !! fresh (dom h) = None.
Proof. apply not_elem_of_dom. apply is_fresh. Qed.

(** An in-place mutation of the internal set is the change of the vote set
    of the value the object stands for: discard and add on the heap are
    [discard_vote] and [cast_vote]. *)
Lemma abstract_set_mutate f (h h' : Heap.heap) self :
  Heap.set_mutate f (Heap.votes_ref self) h = (Ok tt, h') ->
  Heap.abstract h' self = with_votes f <$> Heap.abstract h self.
Proof.
  unfold Heap.set_mutate, Heap.abstract.
  destruct (h !! Heap.votes_ref self) as [vs|] eqn:Hvs; [|done].
  intros [= <-]. by rewrite lookup_insert_eq.
Qed.

(** C10: reading Option.votes returns a reference to a newly allocated set
    with the elements of the internal one; no object that existed before is
    changed by the read, and vote_count changes nothing at all.  Whatever is
    then done in place to the returned set, the internal vote set of the
    option and its vote_count stay as they were. *)
Theorem votes_accessor_returns_a_fresh_copy (h : Heap.heap) (self : Heap.OptionObj)
    (vs : gset Z) :
  h !! Heap.votes_ref self = Some vs ->
  Heap.Option_vote_count self h = (Ok (Z.of_nat (size vs)), h) /\
  exists copy h',
    Heap.Option_votes self h = (Ok copy, h') /\
    h !! copy = None /\
    h' !! copy = Some vs /\
    (forall l, l <> copy -> h' !! l = h !! l) /\
    Heap.abstract h' self = Heap.abstract h self /\
    forall f : gset Z -> gset Z,
      exists h'',
        Heap.set_mutate f copy h' = (Ok tt, h'') /\
        h'' !! copy = Some (f vs) /\
        h'' !! Heap.votes_ref self = Some vs /\
        Heap.abstract h'' self = Heap.abstract h self /\
        Heap.Option_vote_count self h'' = (Ok (Z.of_nat (size vs)), h'').
Proof.
  intros Hvs.
  assert (Hne : Heap.votes_ref self <> fresh (dom h)).
  { intros E. pose proof (fresh_loc_unused h) as Hf. rewrite <- E in Hf.
    congruence. }
  split.
  { unfold Heap.Option_vote_count, Heap.set_len. by rewrite Hvs. }
  exists (fresh (dom h)), (<[ fresh (dom h) := vs ]> h).
  split; [|split; [|split; [|split; [|split]]]].
  - unfold Heap.Option_votes, Heap.set_copy. by rewrite Hvs.
  - apply fresh_loc_unused.
  - apply lookup_insert_eq.
  - intros l Hl. by apply lookup_insert_ne.
  - unfold Heap.abstract. by rewrite lookup_insert_ne.
  - intros f. exists (<[ fresh (dom h) := f vs ]> (<[ fresh (dom h) := vs ]> h)).
    split; [|split; [|split; [|split]]].
    + unfold Heap.set_mutate. by rewrite lookup_insert_eq.
    + apply lookup_insert_eq.
    + by rewrite !lookup_insert_ne.
    + unfold Heap.abstract. by rewrite !lookup_insert_ne.
    + unfold Heap.Option_vote_count, Heap.set_len.
      by rewrite !lookup_insert_ne, Hvs.
Qed.

Lemma votes_accessor_returns_a_fresh_copy_witness :
  exists copy h',
    Heap.Option_votes (Heap.Build_OptionObj 10 "Tea" 1%positive None)
      {[ 1%positive := {[ 7 ]} ]} = (Ok copy, h') /\
    exists h'',
      Heap.set_clear copy h' = (Ok tt, h'') /\
      h'' !! 1%positive = Some ({[ 7 ]} : gset Z).
Proof.
  destruct (votes_accessor_returns_a_fresh_copy
              ({[ 1%positive := {[ 7 ]} ]})
              (Heap.Build_OptionObj 10 "Tea" 1%positive None) {[ 7 ]})
    as (_ & copy & h' & Hrun & _ & _ & _ & _ & Hmut).
  - reflexivity.
  - exists copy, h'. split; [exact Hrun|].
    destruct (Hmut (fun _ => ∅)) as (h'' & Hclear & _ & Hint & _).
    exists h''. split; [exact Hclear | exact Hint].
Defined.

(** ** converters.py *)

Lemma prefix_pipe c s : String.prefix "|" (String c s) = Ascii.eqb c "|".
Proof.
  cbn [String.prefix]. destruct (ascii_dec "|" c) as [<-|N].
  - rewrite Ascii.eqb_refl. by destruct s.
  - symmetry. apply Ascii.eqb_neq. congruence.
Qed.

Lemma split_from_String sep c s :
  split_from sep 0 (String c s) =
    if String.prefix sep (String c s)
    then EmptyString :: split_from sep (String.length sep - 1) s
    else match split_from sep 0 s with
         | p :: ps => String c p :: ps
         | [] => [String c EmptyString]
         end.
Proof. reflexivity. Qed.

Lemma split_no_pipe l : no_pipe l = true -> split_from "|" 0 l = [l].
Proof.
  induction l as [|c l IH]; [done|].
  cbn [no_pipe]. intros [Hc Hl]%andb_prop. apply negb_true_iff in Hc.
  rewrite split_from_String, prefix_pipe, Hc. by rewrite IH.
Qed.

Lemma append_String c l rest :
  String.append (String c l) rest = String c (String.append l rest).
Proof. reflexivity. Qed.

Lemma split_label_pipe l rest :
  no_pipe l = true ->
  split_from "|" 0 (String.append l (String "|" rest)) =
    l :: split_from "|" 0 rest.
Proof.
  induction l as [|c l IH].
  - intros _. change (String.append "" (String "|" rest)) with (String "|" rest).
    by rewrite split_from_String, prefix_pipe, Ascii.eqb_refl.
  - cbn [no_pipe]. intros [Hc Hl]%andb_prop.
    apply negb_true_iff in Hc.
    rewrite append_String, split_from_String, prefix_pipe, Hc. by rewrite IH.
Qed.

(** Labels typed with pipes between them are the pieces that str.split
    finds. *)
Lemma piped_labels_are_the_pieces (labels : list string) :
  labels <> [] ->
  Forall (fun l => no_pipe l = true) labels ->
  split_from "|" 0 (String.concat "|" labels) = labels.
Proof.
  induction labels as [|l ls IH]; [done|]. intros _ Hall.
  inversion Hall as [|? ? Hl Hls]; subst.
  destruct ls as [|l' ls].
  - simpl. by apply split_no_pipe.
  - change (String.concat "|" (l :: l' :: ls))
      with (String.append l (String "|" (String.concat "|" (l' :: ls)))).
    rewrite split_label_pipe by done. by rewrite IH.
Qed.

Lemma parse_options_too_many sep raw :
  sep <> EmptyString ->
  MAX_OPTIONS < Z.of_nat (length (stripped_pieces (split_from sep 0 raw))) ->
  parse_options sep raw =
    Raise (FriendlyError (TooManyOptions (stripped_pieces (split_from sep 0 raw)))).
Proof.
  intros Hsep Hmany. unfold parse_options, str_split.
  destruct sep; [done|].
  unfold MAX_OPTIONS in Hmany.
  by rewrite (proj2 (Z.ltb_lt _ _) Hmany).
Qed.

(** More than MAX_OPTIONS labels, none empty and none holding a pipe, typed
    with pipes between them: the converter raises, naming the stripped
    labels. *)
Lemma piped_labels_too_many (labels : list string) :
  Forall (fun l => no_pipe l = true /\ truthy l = true) labels ->
  MAX_OPTIONS < Z.of_nat (length labels) ->
  parse_options "|" (String.concat "|" labels) =
    Raise (FriendlyError (TooManyOptions (map strip labels))).
Proof.
  intros Hall Hmany.
  assert (Hne : labels <> []) by (intros ->; simpl in Hmany; unfold MAX_OPTIONS in Hmany; lia).
  assert (Hpieces : split_from "|" 0 (String.concat "|" labels) = labels).
  { apply piped_labels_are_the_pieces; [done|].
    eapply List.Forall_impl; [|exact Hall]. by intros l [? _]. }
  assert (Hkeep : List.filter truthy labels = labels).
  { clear Hmany Hne Hpieces. induction Hall as [|l ls [_ Hl] _ IH]; [done|].
    simpl. by rewrite Hl, IH. }
  assert (Hstr : stripped_pieces (split_from "|" 0 (String.concat "|" labels))
                 = map strip labels).
  { unfold stripped_pieces. by rewrite Hpieces, Hkeep. }
  rewrite parse_options_too_many; [by rewrite Hstr | done |].
  by rewrite Hstr, length_map.
Qed.

(** C5: when the options typed into the poll command make more than
    MAX_OPTIONS labels, the converter raises the "too many options" error,
    and the command fails with a FriendlyError in an unchanged world: no
    row is written, no message is sent, no task is started. *)
Theorem more_than_MAX_OPTIONS_labels_are_rejected (raw : string) (w : World)
    (author_id : Z) (question : string) (expires : option Z) (multi : bool)
    (viewers editors voters : list Mention) (repeat_time repeat_count : option Z) :
  MAX_OPTIONS < Z.of_nat (length (stripped_pieces (split_from "|" 0 raw))) ->
  parse_options "|" raw =
    Raise (FriendlyError (TooManyOptions (stripped_pieces (split_from "|" 0 raw)))) /\
  exists msg,
    Paul_poll author_id question (Some raw) expires multi viewers editors voters
      repeat_time repeat_count w = (Raise (FriendlyError msg), w).
Proof.
  intros Hmany.
  assert (Hparse := parse_options_too_many "|" raw ltac:(done) Hmany).
  split; [exact Hparse|].
  unfold Paul_poll, lift, mbind, M_bind, length_bound_str.
  destruct (_ || _).
  - eexists. reflexivity.
  - rewrite Hparse. eexists. reflexivity.
Qed.

Lemma more_than_MAX_OPTIONS_labels_are_rejected_witness :
  MAX_OPTIONS <
    Z.of_nat (length (stripped_pieces
                        (split_from "|" 0 (String.concat "|" (take 24 letters))))) /\
  exists msg,
    Paul_poll 5 "Tea or coffee?" (Some (String.concat "|" (take 24 letters)))
      None false [] [] [] None None fresh_world =
      (Raise (FriendlyError msg), fresh_world).
Proof.
  split; [vm_compute; reflexivity|].
  apply (more_than_MAX_OPTIONS_labels_are_rejected
           (String.concat "|" (take 24 letters)) fresh_world 5 "Tea or coffee?"
           None false [] [] [] None None).
  vm_compute. reflexivity.
Defined.

(** Poll.create_poll refuses the same count, before it writes anything. *)
Lemma Poll_create_poll_too_many params author_id message w :
  MAX_OPTIONS < Z.of_nat (length (PollCommandParams.options params)) ->
  Poll_create_poll params author_id message w =
    (Raise (RuntimeError "too many options"), w).
Proof.
  intros H. unfold Poll_create_poll. by rewrite (proj2 (Z.ltb_lt _ _) H).
Qed.

(** ** paul.py: the helpers *)

Lemma the_poll_run ref w p : polls w !! ref = Some p -> the_poll ref w = (Ok p, w).
Proof. intros H. unfold the_poll. by rewrite H. Qed.

Lemma with_poll_run {A} ref (m : M Agg A) w p r a :
  polls w !! ref = Some p ->
  m {| store := w_store w; poll := p |} = (r, a) ->
  with_poll ref m w = (r, set_agg ref a w).
Proof. intros H Hm. unfold with_poll. by rewrite H, Hm. Qed.

Lemma set_agg_same ref w p :
  polls w !! ref = Some p -> set_agg ref {| store := w_store w; poll := p |} w = w.
Proof.
  intros H. destruct w. unfold set_agg. simpl in *. by rewrite insert_id.
Qed.

Lemma set_closed_closed p : closed p = true -> set_closed true p = p.
Proof. intros H. destruct p. unfold set_closed. simpl in *. by rewrite H. Qed.

Lemma message_edit_run message e w :
  message_edit message e w =
    (if editable w then Ok tt else Raise Forbidden,
     add_request (EditMessage message e) w).
Proof.
  unfold message_edit, mbind, M_bind, modify, gets. simpl.
  by destruct (editable w).
Qed.

(** The re-render: one edit is requested, and a refusal by Discord is
    swallowed. *)
Lemma Paul_update_poll_message_run ref message w p :
  polls w !! ref = Some p ->
  Paul_update_poll_message ref message w =
    (Ok tt,
     add_request
       (EditMessage (default (message_id p) message)
          (if Poll_is_expired p (now w) then PollClosedEmbed p else PollEmbed p))
       w).
Proof.
  intros H. unfold Paul_update_poll_message, try_except.
  assert (Hbody : forall m : Z,
    (p0 ← the_poll ref; t ← gets now;
     message_edit m (if Poll_is_expired p0 t then PollClosedEmbed p0 else PollEmbed p0)) w =
    (if editable w then Ok tt else Raise Forbidden,
     add_request (EditMessage m
        (if Poll_is_expired p (now w) then PollClosedEmbed p else PollEmbed p)) w)).
  { intros m. rewrite (bind_Ok _ _ _ _ _ (the_poll_run _ _ _ H)).
    unfold gets. unfold mbind at 1, M_bind at 1. apply message_edit_run. }
  destruct message as [m|]; simpl.
  - unfold mbind at 1, M_bind at 1. unfold mret at 1, M_ret at 1.
    rewrite Hbody. by destruct (editable w).
  - unfold Paul_get_poll_message.
    unfold mbind at 1, M_bind at 1.
    rewrite (bind_Ok _ _ _ _ _ (the_poll_run _ _ _ H)).
    unfold mret at 1, M_ret at 1.
    rewrite Hbody. by destruct (editable w).
Qed.

Lemma Paul_set_presence_run w : Paul_set_presence w = (Ok tt, presence_effect w).
Proof.
  unfold Paul_set_presence, presence_effect, mbind, M_bind, gets, modify. simpl.
  by destruct (bool_decide _).
Qed.

Lemma presence_effect_fields w :
  w_store (presence_effect w) = w_store w /\
  polls (presence_effect w) = polls w /\
  total_poll_count (presence_effect w) = total_poll_count w /\
  closed_poll_count (presence_effect w) = closed_poll_count w /\
  now (presence_effect w) = now w /\
  tasks (presence_effect w) = tasks w /\
  exists presence,
    requests (presence_effect w) = requests w ++ presence /\
    Forall is_ChangePresence presence.
Proof.
  unfold presence_effect. destruct (bool_decide _); simpl.
  - repeat split; try done. eexists. split; [done|]. by repeat constructor.
  - repeat split; try done. exists []. by rewrite app_nil_r.
Qed.

(** ** C7 and C6 *)

(** C7: a repeat count without a repeat time makes repeat_poll ask for one
    edit of the message, with the text that a repeat time is needed, and
    return (it raises only if Discord refuses the edit); the while loop is
    not entered: the store, the polls, the poll count and the tasks are as
    before, whatever the fuel. *)
Theorem repeat_count_without_repeat_time_creates_nothing (fuel : nat)
    (params : PollCommandParams.t) (author_id message : Z) (w : World) (n : Z) :
  PollCommandParams.repeat_time params = None ->
  PollCommandParams.repeat_count params = Some n ->
  Paul_repeat_poll fuel params author_id message w =
    (if editable w then Ok (Some tt) else Raise Forbidden,
     add_request (EditMessage message RepeatTimeNeededEmbed) w) /\
  w_store (snd (Paul_repeat_poll fuel params author_id message w)) = w_store w /\
  polls (snd (Paul_repeat_poll fuel params author_id message w)) = polls w /\
  total_poll_count (snd (Paul_repeat_poll fuel params author_id message w))
    = total_poll_count w /\
  tasks (snd (Paul_repeat_poll fuel params author_id message w)) = tasks w.
Proof.
  intros Ht Hn.
  assert (E : Paul_repeat_poll fuel params author_id message w =
    (if editable w then Ok (Some tt) else Raise Forbidden,
     add_request (EditMessage message RepeatTimeNeededEmbed) w)).
  { unfold Paul_repeat_poll. rewrite Ht, Hn.
    unfold mbind, M_bind. rewrite message_edit_run.
    by destruct (editable w). }
  rewrite E. done.
Qed.

Lemma repeat_count_without_repeat_time_creates_nothing_witness :
  Paul_repeat_poll 10 (sample_params ["Tea"; "Coffee"]%string (Some 100) None (Some 3))
    5 100 fresh_world =
    (Ok (Some tt), add_request (EditMessage 100 RepeatTimeNeededEmbed) fresh_world).
Proof.
  apply (repeat_count_without_repeat_time_creates_nothing 10
           (sample_params ["Tea"; "Coffee"]%string (Some 100) None (Some 3))
           5 100 fresh_world 3); reflexivity.
Defined.

(** C6: add_poll_option on a poll that already has MAX_OPTIONS options, or
    that is closed, raises a capacity error (the FriendlyError of
    add_poll_option, or the capacity error of new_option) and leaves the
    world as it was; on any other poll it returns, with exactly one option
    row written and exactly one Option, with that label, that author and no
    votes, appended to the poll. *)
Theorem add_poll_option_capacity (w : World) (ref : Z) (p : Poll) (label : string)
    (author_id : Z) (message : option Z) :
  polls w !! ref = Some p ->
  (Z.of_nat (length (options p)) = MAX_OPTIONS \/ Poll_is_opened p (now w) = false ->
   exists e,
     Paul_add_poll_option ref label author_id message w = (Raise e, w) /\
     is_capacity_error e = true) /\
  (Z.of_nat (length (options p)) <> MAX_OPTIONS -> Poll_is_opened p (now w) = true ->
   exists w',
     Paul_add_poll_option ref label author_id message w = (Ok tt, w') /\
     polls w' !! ref =
       Some (set_options
               (fun os => os ++ [Option_init (option_serial (w_store w)) label []
                                    (Some author_id)]) p) /\
     option_rows (w_store w') =
       option_rows (w_store w) ++
         [{| row_id := option_serial (w_store w); row_label := label;
             row_poll_id := poll_id p; row_author := Some author_id |}] /\
     poll_rows (w_store w') = poll_rows (w_store w) /\
     vote_rows (w_store w') = vote_rows (w_store w)).
Proof.
  intros Hp. unfold Poll_is_opened. split.
  - intros Hfull. unfold Paul_add_poll_option.
    rewrite (bind_Ok _ _ _ _ _ (the_poll_run _ _ _ Hp)).
    destruct (Z.eqb_spec (Z.of_nat (length (options p))) MAX_OPTIONS) as [E|N].
    + exists (FriendlyError CannotAddOptions). done.
    + destruct Hfull as [E|Hclosed]; [done|].
      apply negb_false_iff in Hclosed.
      exists CapacityError. split; [|done].
      unfold gets at 1. unfold mbind at 1, M_bind at 1.
      erewrite bind_Raise; [reflexivity|].
      erewrite with_poll_run; [|exact Hp|].
      * by rewrite set_agg_same.
      * unfold Poll_new_option, mbind, M_bind, gets. simpl.
        rewrite (proj2 (Z.eqb_neq _ _) N), Hclosed. reflexivity.
  - intros N Hopen. apply negb_true_iff in Hopen.
    unfold Paul_add_poll_option.
    rewrite (bind_Ok _ _ _ _ _ (the_poll_run _ _ _ Hp)).
    rewrite (proj2 (Z.eqb_neq _ _) N).
    unfold gets at 1. unfold mbind at 1, M_bind at 1.
    erewrite bind_Ok; cycle 1.
    { eapply with_poll_run; [exact Hp|].
      unfold Poll_new_option, mbind, M_bind, gets. simpl.
      rewrite (proj2 (Z.eqb_neq _ _) N), Hopen. reflexivity. }
    erewrite Paul_update_poll_message_run; cycle 1.
    { simpl. apply lookup_insert_eq. }
    eexists. split; [reflexivity|]. simpl.
    split; [apply lookup_insert_eq|]. done.
Qed.

Lemma add_poll_option_capacity_witness :
  exists e,
    Paul_add_poll_option 1 "One more" 5 None (world_with_poll (take 23 letters) None) =
      (Raise e, world_with_poll (take 23 letters) None) /\
    is_capacity_error e = true.
Proof.
  assert (H : polls (world_with_poll (take 23 letters) None) !! 1 =
              Some (poll_at (world_with_poll (take 23 letters) None) 1)).
  { vm_compute. reflexivity. }
  apply (add_poll_option_capacity _ 1 _ "One more" 5 None H).
  left. vm_compute. reflexivity.
Defined.

(** ** C4: Paul.toggle_vote *)

(** The method paul.py calls does what Option.toggle_vote of poll/option.py
    does. *)
Lemma application_Option_toggle_vote_eq self voter :
  application_Option_toggle_vote self voter = Option_toggle_vote self voter.
Proof. reflexivity. Qed.

Lemma toggle_vote_flips a self voter o :
  options (poll a) !! self = Some o ->
  exists st' f o',
    Option_toggle_vote self voter a =
      (Ok tt, {| store := st'; poll := set_options f (poll a) |}) /\
    f (options (poll a)) !! self = Some o' /\
    (voter ∈ votes o' <-> voter ∉ votes o).
Proof.
  intros Ho. rewrite (Option_toggle_vote_run _ _ _ _ Ho).
  destruct (bool_decide (voter ∈ votes o)) eqn:Hin.
  - apply bool_decide_eq_true_1 in Hin.
    rewrite (Option_remove_vote_run _ _ _ _ Ho).
    eexists _, _, (discard_vote voter o). split; [reflexivity|]. split.
    + by rewrite list_lookup_alter_eq, Ho.
    + rewrite votes_discard_vote. set_solver.
  - apply bool_decide_eq_false_1 in Hin.
    destruct (Option_add_vote_run _ voter _ _ Ho) as [st' Hrun].
    rewrite Hrun.
    destruct (allow_multiple_votes (poll a)).
    + eexists _, _, (cast_vote voter o). split; [reflexivity|]. split.
      * by rewrite list_lookup_alter_eq, Ho.
      * rewrite votes_cast_vote. set_solver.
    + eexists _, _, (cast_vote voter (discard_vote voter o)).
      split; [reflexivity|]. split.
      * by rewrite list_lookup_alter_eq, list_lookup_fmap, Ho.
      * rewrite votes_cast_vote. set_solver.
Qed.

(** C4: Paul.toggle_vote on an option of a poll returns; the voter is in the
    option's vote set afterwards exactly when the voter was not in it
    before; and the one request made is the edit of the poll's message,
    with the embed of the poll as it is after the vote. *)
Theorem toggle_vote_flips_and_rerenders (w : World) (ref : Z) (self : nat)
    (voter_id : Z) (p : Poll) (o : Option) :
  polls w !! ref = Some p ->
  options p !! self = Some o ->
  exists w' p' o',
    Paul_toggle_vote (ref, self) voter_id w = (Ok tt, w') /\
    polls w' !! ref = Some p' /\
    options p' !! self = Some o' /\
    (voter_id ∈ votes o' <-> voter_id ∉ votes o) /\
    requests w' =
      requests w ++
        [EditMessage (message_id p)
           (if Poll_is_expired p' (now w) then PollClosedEmbed p' else PollEmbed p')].
Proof.
  intros Hp Ho.
  destruct (toggle_vote_flips {| store := w_store w; poll := p |} self voter_id o Ho)
    as (st' & f & o' & Hrun & Ho' & Hflip).
  unfold Paul_toggle_vote. simpl fst. simpl snd.
  rewrite application_Option_toggle_vote_eq.
  erewrite bind_Ok; [|by eapply with_poll_run].
  erewrite Paul_update_poll_message_run; [|apply lookup_insert_eq].
  eexists _, _, o'. split; [reflexivity|]. simpl.
  split; [apply lookup_insert_eq|]. split; [exact Ho'|]. split; [exact Hflip|].
  done.
Qed.

Lemma toggle_vote_flips_and_rerenders_witness :
  exists w' p' o',
    Paul_toggle_vote (1, 0%nat) 7 scheduled_world = (Ok tt, w') /\
    polls w' !! 1 = Some p' /\
    options p' !! 0%nat = Some o' /\
    7 ∈ votes o'.
Proof.
  destruct (toggle_vote_flips_and_rerenders scheduled_world 1 0 7
              (poll_at scheduled_world 1)
              (Option_init 1 "Tea" [] None))
    as (w' & p' & o' & Hrun & Hp' & Ho' & Hflip & _).
  - vm_compute. reflexivity.
  - vm_compute. reflexivity.
  - exists w', p', o'. split; [exact Hrun|]. split; [exact Hp'|].
    split; [exact Ho'|]. apply Hflip. unfold votes. simpl. set_solver.
Defined.

(** ** C3: the close task *)

Lemma Paul_close_poll_now_run ref message w p :
  polls w !! ref = Some p ->
  Paul_close_poll_now ref message w =
    (Ok tt,
     presence_effect
       (set_closed_poll_count (closed_poll_count w + 1)
          (add_request
             (EditMessage (default (message_id p) message)
                (PollClosedEmbed (set_closed true p)))
             (set_agg ref
                {| store := sql_update_poll_closed (poll_id p) (w_store w);
                   poll := set_closed true p |} w)))).
Proof.
  intros Hp. unfold Paul_close_poll_now.
  erewrite bind_Ok; cycle 1.
  { eapply with_poll_run; [exact Hp|]. reflexivity. }
  erewrite bind_Ok; cycle 1.
  { apply Paul_update_poll_message_run. apply lookup_insert_eq. }
  unfold modify at 1. unfold mbind at 1, M_bind at 1.
  apply Paul_set_presence_run.
Qed.

(** C3, amended: the close task of a poll without expiry returns at once and
    changes nothing.  The close task of a poll with an expiry sleeps until
    then and, on waking, runs close_poll_now without looking at the poll: a
    poll that another path has closed in the meantime stays closed, no error
    is raised, and its message is re-rendered once more, as a closed poll. *)
Theorem close_task_closes_without_looking (w : World) (ref : Z)
    (message : option Z) (p : Poll) :
  polls w !! ref = Some p ->
  match expires p with
  | None => Paul_poll_close_task ref message w = (Ok Finished, w)
  | Some e =>
      Paul_poll_close_task ref message w =
        (Ok (Sleeping (e - now w) (Paul_close_poll_now ref message)), w) /\
      forall w1 p1,
        polls w1 !! ref = Some p1 ->
        closed p1 = true ->
        exists w2 presence,
          Paul_close_poll_now ref message w1 = (Ok tt, w2) /\
          polls w2 !! ref = Some p1 /\
          requests w2 =
            requests w1 ++
              EditMessage (default (message_id p1) message) (PollClosedEmbed p1)
              :: presence /\
          Forall is_ChangePresence presence
  end.
Proof.
  intros Hp.
  assert (Hstart : Paul_poll_close_task ref message w =
    match expires p with
    | None => (Ok Finished, w)
    | Some e => (Ok (Sleeping (e - now w) (Paul_close_poll_now ref message)), w)
    end).
  { unfold Paul_poll_close_task.
    rewrite (bind_Ok _ _ _ _ _ (the_poll_run _ _ _ Hp)).
    by destruct (expires p). }
  destruct (expires p) as [e|]; [|exact Hstart].
  split; [exact Hstart|].
  intros w1 p1 Hp1 Hclosed.
  rewrite (Paul_close_poll_now_run _ _ _ _ Hp1).
  rewrite (set_closed_closed _ Hclosed).
  match goal with |- context [presence_effect ?x] =>
    destruct (presence_effect_fields x)
      as (_ & Hpolls & _ & _ & _ & _ & presence & Hreq & Hpres)
  end.
  eexists _, presence. split; [reflexivity|]. split; [|split; [|exact Hpres]].
  - rewrite Hpolls. simpl. apply lookup_insert_eq.
  - rewrite Hreq. simpl. by rewrite <- app_assoc.
Qed.

Lemma close_task_closes_without_looking_witness :
  Paul_poll_close_task 1 None scheduled_world =
    (Ok (Sleeping 100 (Paul_close_poll_now 1 None)), scheduled_world) /\
  exists w2,
    Paul_close_poll_now 1 None (set_now 100 closed_by_hand_world) = (Ok tt, w2) /\
    closed <$> polls w2 !! 1 = Some true.
Proof.
  pose proof (close_task_closes_without_looking scheduled_world 1 None
    (poll_at scheduled_world 1)) as H.
  assert (Hp : polls scheduled_world !! 1 =
    Some (poll_at scheduled_world 1)) by (vm_compute; reflexivity).
  specialize (H Hp).
  change (expires (poll_at scheduled_world 1)) with (Some 100) in H.
  destruct H as [Hstart Hwake]. split; [exact Hstart|].
  destruct (Hwake (set_now 100 closed_by_hand_world)
              (poll_at closed_by_hand_world 1))
    as (w2 & presence & Hrun & Hpoll & _).
  - vm_compute. reflexivity.
  - vm_compute. reflexivity.
  - exists w2. split; [exact Hrun|]. rewrite Hpoll. vm_compute. reflexivity.
Defined.

(** C3 as stated fails: the poll that expires at 100 is closed by hand at 50,
    which counts one closed poll; when its close task wakes at 100 the poll
    is closed, and the task still asks for another edit of the message and
    counts a second closed poll, of one poll in all. *)
Lemma stale_close_task_renders_and_counts_again :
  Paul_poll_close_task 1 None scheduled_world =
    (Ok (Sleeping 100 (Paul_close_poll_now 1 None)), scheduled_world) /\
  closed <$> polls closed_by_hand_world !! 1 = Some true /\
  closed_poll_count closed_by_hand_world = 1 /\
  total_poll_count closed_by_hand_world = 1 /\
  length (requests closed_by_hand_world) = 4%nat /\
  fst (Paul_close_poll_now 1 None (set_now 100 closed_by_hand_world)) = Ok tt /\
  closed_poll_count woken_world = 2 /\
  total_poll_count woken_world = 1 /\
  drop 4 (requests woken_world) =
    [EditMessage 100
       (PollClosedEmbed
          (poll_at closed_by_hand_world 1));
     ChangePresence (-1) 1 1].
Proof. vm_compute. done. Qed.

(** ** C8: the repeat loop *)

Lemma modify_run {S} (f : S -> S) s : modify f s = (Ok tt, f s).
Proof. reflexivity. Qed.

(** new_poll with no more than MAX_OPTIONS labels: one poll row is written,
    with the expiry of the params, and one poll is counted. *)
Section RepeatPoll.

(** The member who asked for the poll and the message that shows it. *)
Context (author_id message : Z).

Lemma Paul_new_poll_creates params w :
  Z.of_nat (length (PollCommandParams.options params)) <= MAX_OPTIONS ->
  exists w',
    Paul_new_poll params author_id message w = (Ok tt, w') /\
    poll_rows (w_store w') =
      poll_rows (w_store w) ++
        [{| prow_id := poll_serial (w_store w);
            prow_question := PollCommandParams.question params;
            prow_expires := PollCommandParams.expires params;
            prow_closed := false |}] /\
    poll_serial (w_store w') = poll_serial (w_store w) + 1 /\
    total_poll_count w' = total_poll_count w + 1 /\
    now w' = now w.
Proof.
  intros Hlen. unfold Paul_new_poll, try_except.
  assert (Hcreate : exists a,
    Poll_create_poll params author_id message w =
      (Ok (poll_serial (w_store w)), set_agg (poll_serial (w_store w)) a w) /\
    poll_rows (store a) =
      poll_rows (w_store w) ++
        [{| prow_id := poll_serial (w_store w);
            prow_question := PollCommandParams.question params;
            prow_expires := PollCommandParams.expires params;
            prow_closed := false |}] /\
    poll_serial (store a) = poll_serial (w_store w) + 1).
  { unfold Poll_create_poll.
    rewrite (proj2 (Z.ltb_ge _ _) Hlen). simpl.
    eexists. split; [reflexivity|]. done. }
  destruct Hcreate as (a & Hcreate & Hrows & Hserial).
  rewrite (bind_Ok _ _ _ _ _ Hcreate).
  rewrite (bind_Ok _ _ _ _ _ (modify_run _ _)).
  erewrite bind_Ok; cycle 1.
  { apply Paul_update_poll_message_run. apply lookup_insert_eq. }
  rewrite (bind_Ok _ _ _ _ _ (Paul_set_presence_run _)).
  unfold modify.
  eexists. split; [reflexivity|]. simpl.
  match goal with |- context [presence_effect ?x] =>
    destruct (presence_effect_fields x) as (Hst & _ & Htot & _ & Hnow & _)
  end.
  rewrite Hst, Htot, Hnow. done.
Qed.



(** The rows of a repeated poll: there are [k] of them, and the i-th expires
    i intervals after the first. *)
Lemma repeated_rows_lookup k : forall serial question e t i,
  (i < k)%nat ->
  repeated_rows k serial question e t !! i =
    Some {| prow_id := serial + Z.of_nat i; prow_question := question;
            prow_expires := Some (e + Z.of_nat i * t); prow_closed := false |}.
Proof.
  induction k as [|k IH]; intros serial question e t i Hi; [lia|].
  destruct i as [|i]; simpl.
  - by rewrite Z.add_0_r, Z.add_0_r.
  - rewrite IH by lia. do 2 f_equal; [lia|f_equal; lia].
Qed.

Lemma length_repeated_rows k : forall serial question e t,
  length (repeated_rows k serial question e t) = k.
Proof. induction k as [|k IH]; intros; simpl; [done|by rewrite IH]. Qed.


(** X19: with a repeat time, a repeat count of at least 1 and no expiry,
    repeat_poll creates one poll and then raises TypeError, whatever the
    count and the fuel: the repeat time cannot be added to the missing
    expiry. *)
Lemma repeat_poll_without_expiry params w t n fuel :
  PollCommandParams.repeat_time params = Some t ->
  PollCommandParams.repeat_count params = Some n ->
  PollCommandParams.expires params = None ->
  Z.of_nat (length (PollCommandParams.options params)) <= MAX_OPTIONS ->
  1 <= n ->
  (1 <= fuel)%nat ->
  exists w',
    Paul_repeat_poll fuel params author_id message w = (Raise TypeError, w') /\
    length (poll_rows (w_store w')) = Datatypes.S (length (poll_rows (w_store w))) /\
    total_poll_count w' = total_poll_count w + 1.
Proof.
  intros Ht Hn He Hlen Hpos Hfuel. unfold Paul_repeat_poll. rewrite Ht.
  destruct fuel as [|fuel]; [lia|]. cbn [repeat_poll_loop]. rewrite Hn.
  rewrite (proj2 (Z.ltb_lt _ _)) by lia.
  destruct (Paul_new_poll_creates params w Hlen)
    as (w1 & Hnew & Hrows1 & _ & Htot1 & _).
  rewrite (bind_Ok _ _ _ _ _ Hnew). rewrite Ht.
  unfold advance_expires. rewrite He.
  exists w1. split; [reflexivity|]. split; [|exact Htot1].
  rewrite Hrows1, length_app. simpl. lia.
Qed.

End RepeatPoll.

(** C8 at a poll command that gives a repeat time of one second and a repeat
    count of 3 and no expiry: the first poll is created, then adding the
    repeat time to the missing expiry raises TypeError, and the second and
    third polls are never created. *)
Theorem repeat_poll_without_expiry_stops_after_one_poll :
  fst (Paul_repeat_poll 10
         (sample_params ["Yes"; "No"]%string None (Some 1000000) (Some 3))
         5 100 fresh_world) = Raise TypeError /\
  poll_rows (w_store (snd (Paul_repeat_poll 10
         (sample_params ["Yes"; "No"]%string None (Some 1000000) (Some 3))
         5 100 fresh_world))) =
    [{| prow_id := 1; prow_question := "Tea or coffee?";
        prow_expires := None; prow_closed := false |}] /\
  total_poll_count (snd (Paul_repeat_poll 10
         (sample_params ["Yes"; "No"]%string None (Some 1000000) (Some 3))
         5 100 fresh_world)) = 1.
Proof. vm_compute. done. Qed.

(** ** The invariant at creation and when an option is added *)

Lemma fresh_options_have_no_votes labels pid author st o :
  o ∈ fst (Option_create_options labels pid author st) -> votes o = ∅.
Proof.
  unfold Option_create_options, sql_insert_options. simpl.
  intros (r & -> & _)%list_elem_of_fmap. reflexivity.
Qed.

Lemma single_vote_without_votes p :
  (forall o, o ∈ options p -> votes o = ∅) -> single_vote p.
Proof.
  intros Hnone i j oi oj v Hi _ Hv _.
  rewrite (Hnone oi) in Hv by (by eapply list_elem_of_lookup_2).
  set_solver.
Qed.

(** A poll as create_poll returns it holds no vote, hence every voter at
    most once. *)
Lemma created_poll_is_single_vote params author_id message w id w' :
  Poll_create_poll params author_id message w = (Ok id, w') ->
  exists p, polls w' !! id = Some p /\ single_vote p.
Proof.
  unfold Poll_create_poll. destruct (_ <? _); [done|].
  simpl. intros [= <- <-]. eexists. split.
  - simpl. apply lookup_insert_eq.
  - apply single_vote_without_votes. simpl.
    intros o (r & -> & _)%list_elem_of_fmap. reflexivity.
Qed.

(** The option that new_option appends holds no vote either. *)
Lemma new_option_keeps_single_vote t label author_id s s' :
  Poll_new_option t label author_id s = (Ok tt, s') ->
  single_vote (poll s) -> single_vote (poll s').
Proof.
  unfold Poll_new_option, mbind, M_bind, gets. simpl.
  destruct (_ || _); [done|]. intros [= <-] Hinv. simpl.
  intros i j oi oj v Hi Hj Hvi Hvj.
  assert (Hold : forall k ok, (options (poll s) ++
      [Option_init (option_serial (store s)) label [] (Some author_id)]) !! k
        = Some ok -> v ∈ votes ok -> options (poll s) !! k = Some ok).
  { intros k ok Hk Hvk. apply lookup_app_Some in Hk as [Hk|[_ Hk]]; [done|].
    apply list_lookup_singleton_Some in Hk as [_ <-].
    unfold votes in Hvk. simpl in Hvk. set_solver. }
  apply (Hinv i j oi oj v); auto.
Qed.

(** * Further properties of the code *)

(** ** poll/option.py: what the vote mutations leave in the store *)

Lemma delete_votes_empty st : delete_votes ∅ st = st.
Proof.
  destruct st. unfold delete_votes, set_vote_rows. simpl. f_equal.
  apply set_eq. intros x. rewrite elem_of_difference. set_solver.
Qed.

Lemma delete_votes_delete_votes D1 D2 st :
  delete_votes D2 (delete_votes D1 st) = delete_votes (D1 ∪ D2) st.
Proof.
  unfold delete_votes, set_vote_rows. simpl. f_equal.
  apply set_eq. intros x. rewrite !elem_of_difference, elem_of_union. tauto.
Qed.

Lemma sql_delete_vote_delete_votes oid v st :
  sql_delete_vote oid v st = delete_votes {[ (oid, v) ]} st.
Proof. reflexivity. Qed.

Lemma voter_rows_cons v o os :
  voter_rows v (o :: os) = {[ (option_id o, v) ]} ∪ voter_rows v os.
Proof. reflexivity. Qed.

Lemma elem_of_voter_rows v os oid u :
  (oid, u) ∈ voter_rows v os <-> u = v /\ exists o, o ∈ os /\ option_id o = oid.
Proof.
  unfold voter_rows. rewrite elem_of_list_to_set, list_elem_of_fmap. split.
  - intros (o & [= -> ->] & Ho). eauto.
  - intros (-> & o & Ho & <-). eauto.
Qed.

Lemma voter_rows_with_votes v (f : Option -> Option) os :
  (forall o, option_id (f o) = option_id o) ->
  voter_rows v (f <$> os) = voter_rows v os.
Proof.
  intros Hid. unfold voter_rows. f_equal. rewrite <- list_fmap_compose.
  apply list_fmap_ext. intros _ o _. simpl. by rewrite Hid.
Qed.

Lemma voter_rows_alter v (f : Option -> Option) i os :
  (forall o, option_id (f o) = option_id o) ->
  voter_rows v (alter f i os) = voter_rows v os.
Proof.
  intros Hid. unfold voter_rows. f_equal.
  rewrite (list_fmap_alter (fun o => (option_id o, v)) f id).
  - by rewrite list_alter_id.
  - apply Forall_forall. intros o _. simpl. by rewrite Hid.
Qed.

(** The store after the loop of remove_votes_from over [k, k+n). *)
Lemma remove_votes_loop_store v n : forall k s,
  (k + n <= length (options (poll s)))%nat ->
  store (snd (for_each (seq k n) (fun i => Option_remove_vote i v) s)) =
    delete_votes (voter_rows v (take n (drop k (options (poll s))))) (store s).
Proof.
  induction n as [|n IH]; intros k s Hk.
  - simpl. by rewrite delete_votes_empty.
  - destruct (lookup_lt_is_Some_2 (options (poll s)) k) as [o Ho]; [lia|].
    cbn [seq for_each].
    rewrite (bind_Ok _ _ _ _ _ (Option_remove_vote_run _ v _ _ Ho)).
    rewrite IH by (simpl; rewrite length_alter; lia). simpl.
    rewrite drop_alter_lt by lia.
    rewrite sql_delete_vote_delete_votes, delete_votes_delete_votes.
    by rewrite (drop_S _ _ _ Ho).
Qed.

Lemma Poll_remove_votes_from_state v s :
  Poll_remove_votes_from v s =
    (Ok tt,
     {| store := delete_votes (voter_rows v (options (poll s))) (store s);
        poll := set_options (fmap (discard_vote v)) (poll s) |}).
Proof.
  destruct (Poll_remove_votes_from_run v s) as [st' Hrun]. rewrite Hrun.
  do 2 f_equal.
  assert (Hst : st' = store (snd (Poll_remove_votes_from v s))) by (by rewrite Hrun).
  rewrite Hst. unfold Poll_remove_votes_from, mbind, M_bind, gets.
  rewrite remove_votes_loop_store by (simpl; lia).
  by rewrite drop_0, firstn_all.
Qed.

Lemma Option_add_vote_state self v s o :
  options (poll s) !! self = Some o ->
  Option_add_vote self v s =
    (Ok tt,
     {| store := sql_insert_vote (option_id o) v
                   (if allow_multiple_votes (poll s) then store s
                    else delete_votes (voter_rows v (options (poll s))) (store s));
        poll := set_options
                  (fun os => alter (cast_vote v) self
                     (if allow_multiple_votes (poll s) then os
                      else discard_vote v <$> os))
                  (poll s) |}).
Proof.
  intros H. unfold Option_add_vote.
  rewrite (bind_Ok _ _ _ _ _ (the_option_run _ _ _ H)).
  unfold gets at 1. unfold mbind at 1, M_bind at 1.
  destruct (allow_multiple_votes (poll s)) eqn:Hm; simpl.
  - reflexivity.
  - by rewrite (bind_Ok _ _ _ _ _ (Poll_remove_votes_from_state v s)).
Qed.

(** ** poll/option.py: add_vote, remove_vote and the votes of the others *)

Ltac option_eq :=
  match goal with o : Option |- _ => destruct o end;
  unfold cast_vote, discard_vote, with_votes; simpl; f_equal;
  apply set_eq; intros ?;
  rewrite ?elem_of_union, ?elem_of_difference, ?elem_of_singleton,
          ?elem_of_union, ?elem_of_difference, ?elem_of_singleton;
  tauto.

Lemma cast_cast v o : cast_vote v (cast_vote v o) = cast_vote v o.
Proof. option_eq. Qed.

Lemma discard_discard v o : discard_vote v (discard_vote v o) = discard_vote v o.
Proof. option_eq. Qed.

Lemma cast_discard_cast_discard v o :
  cast_vote v (discard_vote v (cast_vote v (discard_vote v o)))
    = cast_vote v (discard_vote v o).
Proof. option_eq. Qed.

Lemma sql_insert_vote_twice oid v st :
  sql_insert_vote oid v (sql_insert_vote oid v st) = sql_insert_vote oid v st.
Proof.
  unfold sql_insert_vote, set_vote_rows. simpl. f_equal.
  apply set_eq. intros x. rewrite !elem_of_union. tauto.
Qed.

Lemma sql_insert_delete_insert oid v D st :
  (oid, v) ∈ D ->
  sql_insert_vote oid v (delete_votes D (sql_insert_vote oid v (delete_votes D st)))
    = sql_insert_vote oid v (delete_votes D st).
Proof.
  intros HD. unfold sql_insert_vote, delete_votes, set_vote_rows. simpl. f_equal.
  apply set_eq. intros x.
  rewrite !elem_of_union, !elem_of_difference, !elem_of_union,
    !elem_of_difference, !elem_of_singleton.
  destruct (decide (x = (oid, v))) as [->|]; tauto.
Qed.

(** X1: add_vote is idempotent, as its docstring says ("if such a vote
    already exists, nothing happens"): run a second time for the same option
    and voter, it returns and leaves the options and the store exactly as
    the first call left them, in a single-vote poll as in any other. *)
Theorem add_vote_a_second_time_changes_nothing s self v o :
  options (poll s) !! self = Some o ->
  exists s1,
    Option_add_vote self v s = (Ok tt, s1) /\
    Option_add_vote self v s1 = (Ok tt, s1).
Proof.
  intros Ho. eexists. split; [by apply Option_add_vote_state|].
  set (G := fun os : list Option =>
              if allow_multiple_votes (poll s) then os else discard_vote v <$> os).
  assert (Ho1 : alter (cast_vote v) self (G (options (poll s))) !! self
                = Some (cast_vote v (if allow_multiple_votes (poll s) then o
                                     else discard_vote v o))).
  { rewrite list_lookup_alter_eq. subst G. simpl.
    destruct (allow_multiple_votes (poll s)).
    - by rewrite Ho.
    - by rewrite list_lookup_fmap, Ho. }
  assert (Hid : option_id (cast_vote v (if allow_multiple_votes (poll s) then o
                                        else discard_vote v o)) = option_id o)
    by (by destruct (allow_multiple_votes (poll s))).
  erewrite Option_add_vote_state by exact Ho1. cbn [poll store].
  rewrite Hid, allow_multiple_votes_set_options, options_set_options.
  fold (G (options (poll s))). f_equal. f_equal.
  - destruct (allow_multiple_votes (poll s)).
    + apply sql_insert_vote_twice.
    + rewrite voter_rows_alter by done.
      rewrite (voter_rows_with_votes v (discard_vote v)) by done.
      apply sql_insert_delete_insert.
      apply elem_of_voter_rows. split; [done|]. exists o. split; [|done].
      by eapply list_elem_of_lookup_2.
  - rewrite set_options_set_options.
    destruct (poll s) as [? ? os ? multi ? ? ? ? ? ?]; unfold set_options;
      simpl in *.
    f_equal. subst G. simpl. apply list_eq. intros i.
    destruct (decide (self = i)) as [<-|Hne].
    + rewrite list_lookup_alter_eq. destruct multi.
      * rewrite !list_lookup_alter_eq, Ho. simpl. by rewrite cast_cast.
      * rewrite list_lookup_fmap, !list_lookup_alter_eq, list_lookup_fmap, Ho.
        simpl. by rewrite cast_discard_cast_discard.
    + rewrite list_lookup_alter_ne by done. destruct multi.
      * by rewrite list_lookup_alter_ne.
      * rewrite !list_lookup_fmap, list_lookup_alter_ne by done.
        rewrite list_lookup_fmap. destruct (os !! i); simpl; [|done].
        by rewrite discard_discard.
Qed.

Lemma add_vote_a_second_time_changes_nothing_witness :
  exists s1,
    Option_add_vote 1 7 (two_options true) = (Ok tt, s1) /\
    Option_add_vote 1 7 s1 = (Ok tt, s1).
Proof.
  apply (add_vote_a_second_time_changes_nothing (two_options true) 1 7
           (Option_init 11 "Coffee" [] None)).
  reflexivity.
Defined.

Lemma size_cast (v : Z) (vs : gset Z) :
  Z.of_nat (size ({[ v ]} ∪ vs)) =
    Z.of_nat (size vs) + (if bool_decide (v ∈ vs) then 0 else 1).
Proof.
  case_bool_decide as Hv.
  - replace ({[ v ]} ∪ vs) with vs by set_solver. lia.
  - rewrite size_union by set_solver. rewrite size_singleton. lia.
Qed.

Lemma size_discard (v : Z) (vs : gset Z) :
  Z.of_nat (size (vs ∖ {[ v ]})) =
    Z.of_nat (size vs) - (if bool_decide (v ∈ vs) then 1 else 0).
Proof.
  case_bool_decide as Hv.
  - rewrite size_difference by set_solver. rewrite size_singleton.
    assert (size vs <> 0)%nat.
    { intros E. apply size_empty_inv in E. set_solver. }
    lia.
  - replace (vs ∖ {[ v ]}) with vs by set_solver. lia.
Qed.

(** X2: vote_count after add_vote is the count before, plus one exactly when
    the voter was not yet in the option's set; after remove_vote it is the
    count before, minus one exactly when the voter was in the set. *)
Theorem vote_count_after_add_vote_and_remove_vote s self v o :
  options (poll s) !! self = Some o ->
  (exists s1 o1,
     Option_add_vote self v s = (Ok tt, s1) /\
     options (poll s1) !! self = Some o1 /\
     vote_count o1 = vote_count o + (if bool_decide (v ∈ votes o) then 0 else 1)) /\
  (exists s2 o2,
     Option_remove_vote self v s = (Ok tt, s2) /\
     options (poll s2) !! self = Some o2 /\
     vote_count o2 = vote_count o - (if bool_decide (v ∈ votes o) then 1 else 0)).
Proof.
  intros Ho. split.
  - rewrite (Option_add_vote_state _ _ _ _ Ho).
    destruct (allow_multiple_votes (poll s)).
    + eexists _, (cast_vote v o). split; [reflexivity|]. split.
      * simpl. by rewrite list_lookup_alter_eq, Ho.
      * unfold vote_count. simpl. apply size_cast.
    + eexists _, (cast_vote v (discard_vote v o)). split; [reflexivity|]. split.
      * simpl. by rewrite list_lookup_alter_eq, list_lookup_fmap, Ho.
      * unfold vote_count. simpl.
        replace ({[ v ]} ∪ __votes o ∖ {[ v ]}) with ({[ v ]} ∪ __votes o).
        -- apply size_cast.
        -- apply set_eq. intros x.
           rewrite !elem_of_union, elem_of_difference, elem_of_singleton.
           destruct (decide (x = v)); tauto.
  - rewrite (Option_remove_vote_run _ _ _ _ Ho).
    eexists _, (discard_vote v o). split; [reflexivity|]. split.
    + simpl. by rewrite list_lookup_alter_eq, Ho.
    + unfold vote_count. simpl. apply size_discard.
Qed.

Lemma vote_count_after_add_vote_and_remove_vote_witness :
  exists s1 o1,
    Option_add_vote 1 7 (two_options true) = (Ok tt, s1) /\
    options (poll s1) !! 1%nat = Some o1 /\
    vote_count o1 = 1.
Proof.
  destruct (vote_count_after_add_vote_and_remove_vote (two_options true) 1 7
              (Option_init 11 "Coffee" [] None)) as [(s1 & o1 & H1 & H2 & H3) _].
  - reflexivity.
  - exists s1, o1. split; [exact H1|]. split; [exact H2|]. exact H3.
Defined.

Lemma same_but_for_refl v o : same_but_for v o o.
Proof. by repeat split. Qed.

Lemma same_but_for_discard v o : same_but_for v o (discard_vote v o).
Proof.
  repeat split; try done; rewrite votes_discard_vote; set_solver.
Qed.

Lemma same_but_for_cast v o : same_but_for v o (cast_vote v o).
Proof.
  repeat split; try done; rewrite votes_cast_vote; set_solver.
Qed.

Lemma same_but_for_cast_discard v o :
  same_but_for v o (cast_vote v (discard_vote v o)).
Proof.
  repeat split; try done;
    rewrite votes_cast_vote, votes_discard_vote; set_solver.
Qed.

Lemma rows_of_others_insert oid v st oid' u :
  u <> v ->
  (oid', u) ∈ vote_rows (sql_insert_vote oid v st) <-> (oid', u) ∈ vote_rows st.
Proof. intros Hu. unfold sql_insert_vote. simpl. set_solver. Qed.

Lemma rows_of_others_delete v os st oid' u :
  u <> v ->
  (oid', u) ∈ vote_rows (delete_votes (voter_rows v os) st) <-> (oid', u) ∈ vote_rows st.
Proof.
  intros Hu. unfold delete_votes. simpl. rewrite elem_of_difference.
  rewrite elem_of_voter_rows. tauto.
Qed.

Lemma rows_of_others_delete_one oid v st oid' u :
  u <> v ->
  (oid', u) ∈ vote_rows (sql_delete_vote oid v st) <-> (oid', u) ∈ vote_rows st.
Proof. intros Hu. unfold sql_delete_vote. simpl. set_solver. Qed.

(** X3: a vote mutation acts for one voter only.  Whichever of add_vote,
    remove_vote, toggle_vote and remove_votes_from is run, on an option that
    exists, in a single-vote poll or not: it returns; the poll has the same
    options, with their ids, labels and authors; and for every other voter,
    membership in every vote set and every vote row in the store is as it
    was. *)
Theorem vote_mutation_touches_one_voter (m : vote_mutation) s :
  targets_within (length (options (poll s))) m ->
  exists s',
    run_mutation m s = (Ok tt, s') /\
    length (options (poll s')) = length (options (poll s)) /\
    (forall j oj,
       options (poll s) !! j = Some oj ->
       exists oj',
         options (poll s') !! j = Some oj' /\
         same_but_for (mutation_voter m) oj oj') /\
    (forall oid u,
       u <> mutation_voter m ->
       (oid, u) ∈ vote_rows (store s') <-> (oid, u) ∈ vote_rows (store s)).
Proof.
  intros Hm.
  assert (Hrem : forall self v o, options (poll s) !! self = Some o ->
    exists s', Option_remove_vote self v s = (Ok tt, s') /\
      length (options (poll s')) = length (options (poll s)) /\
      (forall j oj, options (poll s) !! j = Some oj ->
         exists oj', options (poll s') !! j = Some oj' /\ same_but_for v oj oj') /\
      (forall oid u, u <> v ->
         (oid, u) ∈ vote_rows (store s') <-> (oid, u) ∈ vote_rows (store s))).
  { intros self v o Ho. rewrite (Option_remove_vote_run _ _ _ _ Ho).
    eexists. split; [reflexivity|]. simpl. split; [by rewrite length_alter|].
    split.
    - intros j oj Hj. rewrite list_lookup_alter. case_decide as Hd.
      + subst j. rewrite Hj. simpl. eexists. split; [done|].
        apply same_but_for_discard.
      + exists oj. split; [done|]. apply same_but_for_refl.
    - intros oid u Hu. by apply rows_of_others_delete_one. }
  assert (Hadd : forall self v o, options (poll s) !! self = Some o ->
    exists s', Option_add_vote self v s = (Ok tt, s') /\
      length (options (poll s')) = length (options (poll s)) /\
      (forall j oj, options (poll s) !! j = Some oj ->
         exists oj', options (poll s') !! j = Some oj' /\ same_but_for v oj oj') /\
      (forall oid u, u <> v ->
         (oid, u) ∈ vote_rows (store s') <-> (oid, u) ∈ vote_rows (store s))).
  { intros self v o Ho. rewrite (Option_add_vote_state _ _ _ _ Ho).
    eexists. split; [reflexivity|]. simpl.
    destruct (allow_multiple_votes (poll s)).
    - split; [by rewrite length_alter|]. split.
      + intros j oj Hj. rewrite list_lookup_alter. case_decide as Hd.
        * subst j. rewrite Hj. simpl. eexists. split; [done|].
          apply same_but_for_cast.
        * exists oj. split; [done|]. apply same_but_for_refl.
      + intros oid u Hu. by apply rows_of_others_insert.
    - split; [by rewrite length_alter, length_fmap|]. split.
      + intros j oj Hj. rewrite list_lookup_alter, !list_lookup_fmap.
        case_decide as Hd.
        * subst j. rewrite Hj. simpl. eexists. split; [done|].
          apply same_but_for_cast_discard.
        * rewrite Hj. simpl. eexists. split; [done|].
          apply same_but_for_discard.
      + intros oid u Hu.
        etrans; [by apply (rows_of_others_insert (option_id o) v)|].
        by apply rows_of_others_delete. }
  destruct m as [self v|self v|self v|v]; simpl in *.
  - destruct (lookup_lt_is_Some_2 _ _ Hm) as [o Ho]. eauto.
  - destruct (lookup_lt_is_Some_2 _ _ Hm) as [o Ho]. eauto.
  - destruct (lookup_lt_is_Some_2 _ _ Hm) as [o Ho].
    rewrite (Option_toggle_vote_run _ _ _ _ Ho).
    destruct (bool_decide _); eauto.
  - rewrite Poll_remove_votes_from_state. eexists. split; [reflexivity|].
    simpl. split; [by rewrite length_fmap|]. split.
    + intros j oj Hj. rewrite list_lookup_fmap, Hj. simpl.
      eexists. split; [done|]. apply same_but_for_discard.
    + intros oid u Hu. by apply rows_of_others_delete.
Qed.

Lemma vote_mutation_touches_one_voter_witness :
  exists s',
    run_mutation (ToggleVote 1 9) (two_options true) = (Ok tt, s') /\
    exists tea, options (poll s') !! 0%nat = Some tea /\ 7 ∈ votes tea.
Proof.
  destruct (vote_mutation_touches_one_voter (ToggleVote 1 9) (two_options true))
    as (s' & Hrun & _ & Hsame & _).
  - simpl. lia.
  - exists s'. split; [exact Hrun|].
    destruct (Hsame 0%nat (Option_init 10 "Tea" [7] None) eq_refl)
      as (tea & Htea & _ & _ & _ & Hvotes).
    exists tea. split; [exact Htea|].
    apply (Hvotes 7); [simpl; lia|]. unfold votes. simpl. set_solver.
Defined.

(** ** poll/option.py: the store mirrors the options, and loads them back *)

Lemma fmap_alter_unchanged {B} (g : Option -> B) (f : Option -> Option) (i : nat)
    (os : list Option) :
  (forall o, g (f o) = g o) -> g <$> alter f i os = g <$> os.
Proof.
  intros Hg. rewrite (list_fmap_alter g f id).
  - by rewrite list_alter_id.
  - apply Forall_forall. intros o _. simpl. apply Hg.
Qed.

Lemma fmap_fmap_unchanged {B} (g : Option -> B) (f : Option -> Option)
    (os : list Option) :
  (forall o, g (f o) = g o) -> g <$> (f <$> os) = g <$> os.
Proof.
  intros Hg. rewrite <- list_fmap_compose. apply list_fmap_ext.
  intros _ o _. simpl. apply Hg.
Qed.

Lemma distinct_ids_lookup p i j oi oj :
  distinct_ids p ->
  options p !! i = Some oi -> options p !! j = Some oj ->
  option_id oi = option_id oj -> i = j.
Proof.
  intros Hnd Hi Hj E.
  eapply (NoDup_lookup _ i j (option_id oi) Hnd).
  - by rewrite list_lookup_fmap, Hi.
  - by rewrite list_lookup_fmap, Hj, E.
Qed.

(** One mutation keeps the mirror: the vote rows of the options, their
    distinct ids, the option rows and what they say of the options. *)
Lemma mutation_keeps_mirror (m : vote_mutation) s :
  targets_within (length (options (poll s))) m ->
  votes_mirrored s -> distinct_ids (poll s) ->
  exists s',
    run_mutation m s = (Ok tt, s') /\
    length (options (poll s')) = length (options (poll s)) /\
    votes_mirrored s' /\
    option_id <$> options (poll s') = option_id <$> options (poll s) /\
    row_of (poll_id (poll s')) <$> options (poll s')
      = row_of (poll_id (poll s)) <$> options (poll s) /\
    poll_id (poll s') = poll_id (poll s) /\
    option_rows (store s') = option_rows (store s).
Proof.
  intros Hm Hmir Hnd.
  assert (Hrem : forall self v o, options (poll s) !! self = Some o ->
    exists s', Option_remove_vote self v s = (Ok tt, s') /\
      length (options (poll s')) = length (options (poll s)) /\
      votes_mirrored s' /\
      option_id <$> options (poll s') = option_id <$> options (poll s) /\
      row_of (poll_id (poll s')) <$> options (poll s')
        = row_of (poll_id (poll s)) <$> options (poll s) /\
      poll_id (poll s') = poll_id (poll s) /\
      option_rows (store s') = option_rows (store s)).
  { intros self v o Ho. rewrite (Option_remove_vote_run _ _ _ _ Ho).
    eexists. split; [reflexivity|]. simpl.
    split; [by rewrite length_alter|].
    split; [|by rewrite !fmap_alter_unchanged].
    intros o' u (j & Hj)%list_elem_of_lookup. simpl in *.
    rewrite list_lookup_alter in Hj. case_decide as Hd.
    - subst j. rewrite Ho in Hj. injection Hj as <-.
      rewrite votes_discard_vote, elem_of_difference, elem_of_singleton.
      rewrite (Hmir o u) by (by eapply list_elem_of_lookup_2).
      simpl. rewrite elem_of_difference, elem_of_singleton.
      split; [intros [? ?]; split; [done|congruence]|].
      intros [? Hne]. split; [done|]. by intros ->.
    - rewrite elem_of_difference, elem_of_singleton.
      rewrite (Hmir o' u) by (by eapply list_elem_of_lookup_2).
      split; [|tauto]. intros Hrow. split; [done|]. intros [= E _].
      apply Hd. symmetry. by eapply distinct_ids_lookup. }
  assert (Hall : forall v,
    votes_mirrored
      {| store := delete_votes (voter_rows v (options (poll s))) (store s);
         poll := set_options (fmap (discard_vote v)) (poll s) |}).
  { intros v o' u (j & Hj)%list_elem_of_lookup. simpl in *.
    rewrite list_lookup_fmap in Hj.
    destruct (options (poll s) !! j) as [oj|] eqn:Hoj; [|done].
    injection Hj as <-.
    assert (Hin : oj ∈ options (poll s)) by (by eapply list_elem_of_lookup_2).
    rewrite votes_discard_vote, elem_of_difference, elem_of_singleton.
    rewrite (Hmir oj u Hin).
    rewrite elem_of_difference, elem_of_voter_rows. simpl.
    split; [intros [? ?]; split; [done|tauto]|].
    intros [? Hn]. split; [done|]. intros ->. apply Hn. eauto. }
  assert (Hadd : forall self v o, options (poll s) !! self = Some o ->
    exists s', Option_add_vote self v s = (Ok tt, s') /\
      length (options (poll s')) = length (options (poll s)) /\
      votes_mirrored s' /\
      option_id <$> options (poll s') = option_id <$> options (poll s) /\
      row_of (poll_id (poll s')) <$> options (poll s')
        = row_of (poll_id (poll s)) <$> options (poll s) /\
      poll_id (poll s') = poll_id (poll s) /\
      option_rows (store s') = option_rows (store s)).
  { intros self v o Ho. rewrite (Option_add_vote_state _ _ _ _ Ho).
    eexists. split; [reflexivity|]. simpl.
    destruct (allow_multiple_votes (poll s)).
    - split; [by rewrite length_alter|].
      split; [|by rewrite !fmap_alter_unchanged].
      intros o' u (j & Hj)%list_elem_of_lookup. simpl in *.
      rewrite list_lookup_alter in Hj. case_decide as Hd.
      + subst j. rewrite Ho in Hj. injection Hj as <-.
        rewrite votes_cast_vote, !elem_of_union, !elem_of_singleton.
        rewrite (Hmir o u) by (by eapply list_elem_of_lookup_2).
        simpl. split; [intros [->|?]; tauto|].
        intros [[= ->]|?]; tauto.
      + rewrite elem_of_union, elem_of_singleton.
        rewrite (Hmir o' u) by (by eapply list_elem_of_lookup_2).
        split; [tauto|]. intros [[= E _]|?]; [|done].
        exfalso. apply Hd. symmetry. by eapply distinct_ids_lookup.
    - split; [by rewrite length_alter, length_fmap|].
      split; [|by rewrite !fmap_alter_unchanged, !fmap_fmap_unchanged].
      intros o' u (j & Hj)%list_elem_of_lookup. simpl in *.
      rewrite list_lookup_alter in Hj. case_decide as Hd.
      + subst j. rewrite list_lookup_fmap, Ho in Hj. injection Hj as <-.
        rewrite votes_cast_vote, votes_discard_vote.
        rewrite !elem_of_union, !elem_of_difference, !elem_of_singleton.
        rewrite (Hmir o u) by (by eapply list_elem_of_lookup_2).
        rewrite elem_of_voter_rows. simpl.
        split; [intros [->|[? ?]]; [by left|right; split; [done|tauto]]|].
        intros [[= ->]|[? Hn]]; [by left|].
        destruct (decide (u = v)) as [->|]; [by left|by right].
      + assert (Hin' : o' ∈ discard_vote v <$> options (poll s))
          by (by eapply list_elem_of_lookup_2).
        pose proof (Hall v o' u Hin') as Hj'. simpl in Hj'.
        rewrite elem_of_union, elem_of_singleton.
        split; [intros ?%Hj'; by right|].
        intros [[= E ->]|?]; [|by apply Hj'].
        exfalso. rewrite list_lookup_fmap in Hj.
        destruct (options (poll s) !! j) as [oj|] eqn:Hoj; [|done].
        injection Hj as <-. apply Hd. symmetry.
        by eapply (distinct_ids_lookup (poll s) j self oj o). }
  destruct m as [self v|self v|self v|v]; simpl in *.
  - destruct (lookup_lt_is_Some_2 _ _ Hm) as [o Ho]. eauto.
  - destruct (lookup_lt_is_Some_2 _ _ Hm) as [o Ho]. eauto.
  - destruct (lookup_lt_is_Some_2 _ _ Hm) as [o Ho].
    rewrite (Option_toggle_vote_run _ _ _ _ Ho).
    destruct (bool_decide _); eauto.
  - rewrite Poll_remove_votes_from_state. eexists. split; [reflexivity|].
    split; [by simpl; rewrite length_fmap|].
    split; [apply Hall|]. simpl. by rewrite !fmap_fmap_unchanged.
Qed.

(** X4: the store stays in step with the options.  From a state in which
    the vote rows of the options are exactly their vote sets, the option
    rows of the poll are exactly its options and the option ids are
    distinct, every sequence of vote mutations on options of the poll
    returns and ends in such a state. *)
Theorem vote_mutations_keep_the_store_in_step s (ms : list vote_mutation) :
  votes_mirrored s -> options_mirrored s -> distinct_ids (poll s) ->
  Forall (targets_within (length (options (poll s)))) ms ->
  exists s',
    for_each ms run_mutation s = (Ok tt, s') /\
    votes_mirrored s' /\ options_mirrored s' /\ distinct_ids (poll s').
Proof.
  revert s. induction ms as [|m ms IH]; intros s Hv Ho Hnd Hms.
  - exists s. done.
  - inversion Hms as [|? ? Hm Hms']; subst.
    destruct (mutation_keeps_mirror m s Hm Hv Hnd)
      as (s1 & Hrun & Hlen & Hv1 & Hids & Hrows & Hpid & Hst).
    destruct (IH s1) as (s' & Hrun' & H'); try done.
    + unfold options_mirrored. rewrite Hst, Hpid. rewrite Ho. symmetry.
      rewrite Hpid in Hrows. exact Hrows.
    + unfold distinct_ids. by rewrite Hids.
    + by rewrite Hlen.
    + exists s'. split; [|done]. simpl. by rewrite (bind_Ok _ _ _ _ _ Hrun).
Qed.

Lemma Option_get_voters_spec oid st u :
  u ∈ Option_get_voters oid st <-> (oid, u) ∈ vote_rows st.
Proof.
  unfold Option_get_voters. rewrite elem_of_map. split.
  - intros ([oid' u'] & -> & [E Hin]%elem_of_filter). simpl in *. by subst.
  - intros Hin. exists (oid, u). split; [done|]. by apply elem_of_filter.
Qed.

Lemma stored_two_options_mirrored :
  votes_mirrored (stored_two_options true) /\
  options_mirrored (stored_two_options true) /\
  distinct_ids (poll (stored_two_options true)).
Proof.
  split; [|split].
  - intros o v Ho. simpl in Ho.
    apply elem_of_cons in Ho as [->|Ho];
      [|apply elem_of_cons in Ho as [->|Ho]; [|by apply elem_of_nil in Ho]];
      unfold votes; simpl; set_solver.
  - reflexivity.
  - unfold distinct_ids. simpl. repeat constructor; set_solver.
Qed.

Lemma vote_mutations_keep_the_store_in_step_witness :
  exists s',
    for_each [ToggleVote 1 7; AddVote 0 9] run_mutation (stored_two_options true)
      = (Ok tt, s') /\
    votes_mirrored s'.
Proof.
  destruct stored_two_options_mirrored as (Hv & Ho & Hnd).
  destruct (vote_mutations_keep_the_store_in_step (stored_two_options true)
              [ToggleVote 1 7; AddVote 0 9] Hv Ho Hnd)
    as (s' & Hrun & Hv' & _).
  - repeat constructor; simpl; lia.
  - exists s'. split; [exact Hrun | exact Hv'].
Defined.

(** X5: loading gives back what is in memory.  When the store is in step
    with the options of a poll, get_options_of_poll for that poll returns
    exactly the options in memory: the same ids, labels and authors, in the
    same order, with the same vote sets. *)
Theorem loading_gives_the_options_in_memory s :
  options_mirrored s -> votes_mirrored s ->
  Option_get_options_of_poll (poll_id (poll s)) (store s) = options (poll s).
Proof.
  intros Ho Hv. unfold Option_get_options_of_poll. rewrite Ho.
  rewrite map_map. rewrite <- (map_id (options (poll s))) at 2.
  apply map_ext_in. intros o Hin%list_elem_of_In. simpl.
  destruct o as [oid l vs a]. unfold Option_init. simpl. f_equal.
  rewrite list_to_set_elements_L. apply set_eq. intros u.
  rewrite Option_get_voters_spec. symmetry. apply (Hv _ u Hin).
Qed.

Lemma loading_gives_the_options_in_memory_witness :
  Option_get_options_of_poll 1 (store (stored_two_options true))
    = options (poll (stored_two_options true)).
Proof.
  destruct stored_two_options_mirrored as (Hv & Ho & _).
  exact (loading_gives_the_options_in_memory (stored_two_options true) Ho Hv).
Defined.

(** ** poll/option.py: create_options *)




(** ** converters.py: parse_options *)

Lemma lstrip_head s :
  lstrip s = EmptyString \/
  exists c t, lstrip s = String c t /\ is_space c = false.
Proof.
  induction s as [|c s IH]; simpl; [by left|].
  destruct (is_space c) eqn:Hc; [exact IH|]. right. eauto.
Qed.

Lemma rstrip_String c s :
  rstrip (String c s) =
    match rstrip s with
    | EmptyString => if is_space c then EmptyString else String c EmptyString
    | r => String c r
    end.
Proof. reflexivity. Qed.

Lemma rstrip_rstrip s : rstrip (rstrip s) = rstrip s.
Proof.
  induction s as [|c s IH]; [done|]. rewrite rstrip_String.
  destruct (rstrip s) as [|d r] eqn:Hr.
  - destruct (is_space c) eqn:Hc; [done|]. rewrite rstrip_String. simpl.
    by rewrite Hc.
  - rewrite (rstrip_String c (String d r)). by rewrite IH.
Qed.

Lemma rstrip_keeps_head c t :
  is_space c = false -> exists r, rstrip (String c t) = String c r.
Proof.
  intros Hc. rewrite rstrip_String. destruct (rstrip t); [|eauto].
  rewrite Hc. eauto.
Qed.

(** Stripping a stripped string changes nothing. *)
Lemma strip_strip s : strip (strip s) = strip s.
Proof.
  unfold strip. destruct (lstrip_head s) as [E|(c & t & E & Hc)]; rewrite E.
  - reflexivity.
  - destruct (rstrip_keeps_head c t Hc) as [r Hr]. rewrite Hr.
    cbn [lstrip]. rewrite Hc. rewrite <- Hr. apply rstrip_rstrip.
Qed.

Lemma lstrip_no_pipe s : no_pipe s = true -> no_pipe (lstrip s) = true.
Proof.
  induction s as [|c s IH]; [done|]. cbn [lstrip no_pipe].
  intros [Hc Hs]%andb_prop. destruct (is_space c); [by apply IH|].
  cbn [no_pipe]. by rewrite Hc, Hs.
Qed.

Lemma rstrip_no_pipe s : no_pipe s = true -> no_pipe (rstrip s) = true.
Proof.
  induction s as [|c s IH]; [done|]. rewrite rstrip_String. cbn [no_pipe].
  intros [Hc Hs]%andb_prop. specialize (IH Hs).
  destruct (rstrip s) as [|d r].
  - destruct (is_space c); [done|]. cbn [no_pipe]. by rewrite Hc.
  - change (no_pipe (String c (String d r)))
      with (negb (Ascii.eqb c "|") && no_pipe (String d r)).
    by rewrite Hc, IH.
Qed.

Lemma split_pieces_no_pipe s :
  Forall (fun p => no_pipe p = true) (split_from "|" 0 s).
Proof.
  induction s as [|c s IH]; [by repeat constructor|].
  rewrite split_from_String, prefix_pipe.
  destruct (Ascii.eqb c "|") eqn:Hc.
  - by constructor.
  - destruct (split_from "|" 0 s) as [|p ps]; [by repeat constructor; cbn; rewrite Hc|].
    inversion IH; subst. constructor; [|done]. cbn [no_pipe]. by rewrite Hc.
Qed.

(** X7: what parse_options returns.  When the converter of the poll command
    returns, it returns between 1 and 23 labels, never an empty list; every
    label is at most 253 characters long, has no white space at either end,
    and holds no pipe. *)
Theorem parse_options_returns_clean_labels (raw : string) (labels : list string) :
  parse_options "|" raw = Ok labels ->
  labels <> [] /\
  Z.of_nat (length labels) <= 23 /\
  Forall (fun l => len l <= 253 /\ strip l = l /\ no_pipe l = true) labels.
Proof.
  unfold parse_options, str_split.
  set (result := stripped_pieces (split_from "|" 0 raw)).
  assert (Hclean : Forall (fun l => strip l = l /\ no_pipe l = true) result).
  { subst result. unfold stripped_pieces. apply Forall_forall.
    intros l (p & <- & Hp%filter_In)%in_map_iff. split; [apply strip_strip|].
    unfold strip. apply rstrip_no_pipe, lstrip_no_pipe.
    pose proof (split_pieces_no_pipe raw) as Hall.
    rewrite Forall_forall in Hall. apply Hall. tauto. }
  destruct (23 <? Z.of_nat (length result)) eqn:Hmany; [done|].
  apply Z.ltb_ge in Hmany.
  destruct (find _ result) as [long|] eqn:Hfind; [done|].
  assert (Hshort : Forall (fun l => len l <= 253) result).
  { apply Forall_forall. intros l Hl.
    pose proof (find_none _ _ Hfind l Hl) as Hn. simpl in Hn.
    by apply Z.ltb_ge in Hn. }
  destruct result as [|l ls] eqn:Hres.
  - intros [= <-]. split; [done|]. split; [simpl; lia|].
    repeat constructor; by vm_compute.
  - intros [= <-]. split; [done|]. split; [done|].
    rewrite Forall_forall in *. intros x Hx.
    destruct (Hclean x Hx). split; [by apply Hshort|done].
Qed.

Lemma parse_options_returns_clean_labels_witness :
  parse_options "|" " Tea | Coffee ||  " = Ok ["Tea"; "Coffee"; ""]%string /\
  Forall (fun l => len l <= 253 /\ strip l = l /\ no_pipe l = true)
    ["Tea"; "Coffee"; ""]%string.
Proof.
  assert (H : parse_options "|" " Tea | Coffee ||  " = Ok ["Tea"; "Coffee"; ""]%string)
    by (vm_compute; reflexivity).
  split; [exact H|].
  exact (proj2 (proj2 (parse_options_returns_clean_labels _ _ H))).
Defined.

(** ** converters.py: str.split and str.join *)

Lemma prefix_append sep : forall s,
  String.prefix sep s = true -> exists rest, s = String.append sep rest.
Proof.
  induction sep as [|a sep IH]; intros s H.
  - exists s. reflexivity.
  - destruct s as [|b s]; [done|]. cbn [String.prefix] in H.
    destruct (ascii_dec a b) as [<-|]; [|done].
    destruct (IH s H) as [rest ->]. exists rest. reflexivity.
Qed.

Lemma split_from_skip sep : forall pre rest,
  split_from sep (String.length pre) (String.append pre rest)
    = split_from sep 0 rest.
Proof.
  induction pre as [|c pre IH]; intros rest; [done|].
  rewrite append_String. cbn [String.length].
  change (split_from sep (Datatypes.S (String.length pre))
            (String c (String.append pre rest)))
    with (split_from sep (String.length pre) (String.append pre rest)).
  apply IH.
Qed.

Lemma split_from_not_nil sep : forall s k, split_from sep k s <> [].
Proof.
  induction s as [|c s IH]; intros k; [done|]. cbn [split_from].
  destruct k as [|k]; [|apply IH].
  destruct (String.prefix sep (String c s)); [done|].
  by destruct (split_from sep 0 s).
Qed.

Lemma concat_cons_char sep c p ps :
  String.concat sep (String c p :: ps) = String c (String.concat sep (p :: ps)).
Proof. by destruct ps. Qed.

Lemma length_append s1 s2 :
  String.length (String.append s1 s2) = (String.length s1 + String.length s2)%nat.
Proof. induction s1 as [|c s1 IH]; [done|]. rewrite append_String. simpl. by rewrite IH. Qed.

Lemma join_split sep n : forall s,
  sep <> EmptyString -> (String.length s <= n)%nat ->
  String.concat sep (split_from sep 0 s) = s.
Proof.
  induction n as [|n IH]; intros s Hsep Hlen.
  - destruct s; [done|simpl in Hlen; lia].
  - destruct s as [|c s]; [done|]. rewrite split_from_String.
    destruct (String.prefix sep (String c s)) eqn:Hpre.
    + destruct (prefix_append _ _ Hpre) as [rest Hrest].
      destruct sep as [|a sep]; [done|].
      rewrite append_String in Hrest. injection Hrest as <- ->.
      change (String.length (String c sep) - 1)%nat with (String.length sep - 0)%nat.
      rewrite Nat.sub_0_r, split_from_skip.
      destruct (split_from (String c sep) 0 rest) as [|p ps] eqn:Hsplit;
        [by apply split_from_not_nil in Hsplit|].
      change (String.concat (String c sep) (EmptyString :: p :: ps))
        with (String.append (String c sep) (String.concat (String c sep) (p :: ps))).
      rewrite <- Hsplit, IH; [done|done|].
      simpl in Hlen. rewrite length_append in Hlen. lia.
    + destruct (split_from sep 0 s) as [|p ps] eqn:Hsplit;
        [by apply split_from_not_nil in Hsplit|].
      rewrite concat_cons_char, <- Hsplit, IH; [done|done|].
      simpl in Hlen. lia.
Qed.

(** X8: joining what str.split returns gives the string back.  For every
    string and every non-empty separator, of one character or more, the
    pieces that [str_split] returns, joined with the separator between them,
    are the string itself; and an empty separator is a ValueError. *)
Theorem split_then_join_is_the_string (s sep : string) :
  match str_split s sep with
  | Ok pieces => sep <> EmptyString /\ pieces <> [] /\ String.concat sep pieces = s
  | Raise e => sep = EmptyString /\ e = ValueError
  end.
Proof.
  unfold str_split. destruct sep as [|a sep]; [done|].
  split; [done|]. split; [apply split_from_not_nil|].
  by apply (join_split _ (String.length s)).
Qed.

(** ** converters.py: parse_expires *)

Lemma digit_is_no_unit d : is_digit d = true -> is_unit d = false.
Proof.
  destruct d as [[] [] [] [] [] [] [] []]; vm_compute; congruence.
Qed.

Lemma digit_is_no_space d : is_digit d = true -> Ascii.eqb d " " = false.
Proof.
  destruct d as [[] [] [] [] [] [] [] []]; vm_compute; congruence.
Qed.

Lemma unit_is_no_space c : is_unit c = true -> Ascii.eqb c " " = false.
Proof.
  destruct c as [[] [] [] [] [] [] [] []]; vm_compute; congruence.
Qed.

Lemma relative_date_parse_fix_head c s :
  exists t, relative_date_parse_fix (String c s) = String c t.
Proof.
  destruct s as [|d s]; [by eexists|]. cbn [relative_date_parse_fix].
  destruct (is_unit c && is_digit d); by eexists.
Qed.

Lemma fix_String2 c d s :
  relative_date_parse_fix (String c (String d s)) =
    if is_unit c && is_digit d
    then String c (String " " (String d (relative_date_parse_fix s)))
    else String c (relative_date_parse_fix (String d s)).
Proof. reflexivity. Qed.

Lemma unit_before_digit_String c d t :
  unit_before_digit (String c (String d t))
    = (is_unit c && is_digit d) || unit_before_digit (String d t).
Proof. reflexivity. Qed.

Lemma fix_leaves_no_unit_before_digit s :
  unit_before_digit (relative_date_parse_fix s) = false /\
  forall c, unit_before_digit (relative_date_parse_fix (String c s)) = false.
Proof.
  induction s as [|d s [IH1 IH2]]; [done|]. split; [apply IH2|].
  intros c. rewrite fix_String2.
  destruct (is_unit c && is_digit d) eqn:Hm.
  - apply andb_prop in Hm as [Hc Hd].
    rewrite unit_before_digit_String.
    replace (is_digit " ") with false by reflexivity.
    rewrite andb_false_r, orb_false_l.
    rewrite unit_before_digit_String.
    replace (is_unit " ") with false by reflexivity.
    rewrite andb_false_l, orb_false_l.
    destruct (relative_date_parse_fix s) as [|x t] eqn:Hs; [done|].
    rewrite unit_before_digit_String, (digit_is_no_unit d Hd).
    by rewrite andb_false_l, orb_false_l.
  - destruct (relative_date_parse_fix_head d s) as [t Ht].
    specialize (IH2 d). rewrite Ht in *.
    by rewrite unit_before_digit_String, Hm, orb_false_l.
Qed.

Lemma fix_of_fixed s :
  (unit_before_digit s = false -> relative_date_parse_fix s = s) /\
  forall c, unit_before_digit (String c s) = false ->
            relative_date_parse_fix (String c s) = String c s.
Proof.
  induction s as [|d s [IH1 IH2]]; [done|]. split; [apply IH2|].
  intros c. rewrite unit_before_digit_String.
  intros [Hm Hrest]%orb_false_elim. rewrite fix_String2, Hm.
  f_equal. by apply IH2.
Qed.

Lemma fix_only_adds_spaces s :
  without_spaces (relative_date_parse_fix s) = without_spaces s /\
  forall c, without_spaces (relative_date_parse_fix (String c s))
            = without_spaces (String c s).
Proof.
  induction s as [|d s [IH1 IH2]]; [done|]. split; [apply IH2|].
  intros c. rewrite fix_String2.
  destruct (is_unit c && is_digit d) eqn:Hm.
  - apply andb_prop in Hm as [Hc Hd].
    cbn [without_spaces].
    rewrite (unit_is_no_space c Hc), (digit_is_no_space d Hd).
    replace (Ascii.eqb " " " ") with true by reflexivity.
    by rewrite IH1.
  - cbn [without_spaces]. specialize (IH2 d).
    cbn [without_spaces] in IH2. by rewrite IH2.
Qed.

(** X9: the rewrite of the expiry text before it is parsed.  It leaves no
    unit letter (d, h, m, s) directly before a digit; it only adds spaces,
    so that without its spaces the text is as before; and it is idempotent:
    on a text with no unit letter directly before a digit it changes
    nothing. *)
Theorem relative_date_fix_separates_units_from_digits (s : string) :
  unit_before_digit (relative_date_parse_fix s) = false /\
  without_spaces (relative_date_parse_fix s) = without_spaces s /\
  relative_date_parse_fix (relative_date_parse_fix s) = relative_date_parse_fix s /\
  (unit_before_digit s = false -> relative_date_parse_fix s = s).
Proof.
  pose proof (proj1 (fix_leaves_no_unit_before_digit s)) as Hclean.
  split; [exact Hclean|]. split; [apply fix_only_adds_spaces|].
  split; [|apply fix_of_fixed]. by apply fix_of_fixed.
Qed.


(** ** paul.py: re-rendering and presence *)



Lemma presence_effect_presence_effect w :
  presence_effect (presence_effect w) = presence_effect w.
Proof.
  unfold presence_effect.
  destruct (bool_decide (_ <> activity_name w)) eqn:Hd.
  - simpl. rewrite bool_decide_eq_false_2; [done|]. intros H. by apply H.
  - by rewrite Hd.
Qed.

(** X12: the presence is only sent when it changes.  __set_presence always
    returns; it leaves the activity name standing for the current counts
    (active = total - closed, total, servers); it requests a presence
    change exactly when that name differs from the one it had, and nothing
    else; so a second call right after the first requests nothing and
    changes nothing. *)
Theorem set_presence_only_on_change (w : World) :
  exists w1,
    Paul_set_presence w = (Ok tt, w1) /\
    activity_name w1
      = Some (total_poll_count w - closed_poll_count w, total_poll_count w, guilds w) /\
    requests w1 =
      requests w ++
        (if bool_decide (activity_name w =
               Some (total_poll_count w - closed_poll_count w,
                     total_poll_count w, guilds w))
         then []
         else [ChangePresence (total_poll_count w - closed_poll_count w)
                 (total_poll_count w) (guilds w)]) /\
    Paul_set_presence w1 = (Ok tt, w1).
Proof.
  exists (presence_effect w). split; [apply Paul_set_presence_run|].
  split; [|split].
  - unfold presence_effect. case_bool_decide as Hd; simpl; [done|].
    destruct (decide (Some (total_poll_count w - closed_poll_count w,
                            total_poll_count w, guilds w) = activity_name w));
      [done|contradiction].
  - unfold presence_effect. case_bool_decide as Hd; simpl.
    + rewrite bool_decide_eq_false_2; [done|]. congruence.
    + rewrite bool_decide_eq_true_2; [by rewrite app_nil_r|].
      destruct (decide (Some (total_poll_count w - closed_poll_count w,
                              total_poll_count w, guilds w) = activity_name w));
        [done|contradiction].
  - rewrite Paul_set_presence_run. by rewrite presence_effect_presence_effect.
Qed.

(** ** paul.py: __load_polls and on_ready *)

Lemma load_one_poll (p : Poll) (b : Bot) :
  (in_world (register_poll p);;
   in_world (modify (fun w => set_total_poll_count (total_poll_count w + 1) w));;
   t ← in_world (gets now);
   (if Poll_is_opened p t
    then in_world (modify (add_task (SpawnPollCloseTask (poll_id p))))
    else in_world (modify (fun w =>
           set_closed_poll_count (closed_poll_count w + 1) w)));;
   add_view (poll_id p)) b =
  (Ok tt,
   {| world :=
        (if Poll_is_opened p (now (world b))
         then add_task (SpawnPollCloseTask (poll_id p))
         else fun w => set_closed_poll_count (closed_poll_count w + 1) w)
          (set_total_poll_count (total_poll_count (world b) + 1)
             (set_agg (poll_id p) {| store := w_store (world b); poll := p |}
                (world b)));
      views := views b ++ [poll_id p];
      on_ready_triggered := on_ready_triggered b |}).
Proof.
  unfold mbind, M_bind, in_world, register_poll, modify, gets, add_view. simpl.
  by destruct (Poll_is_opened p (now (world b))).
Qed.

Lemma Paul_load_polls_effect (fetched : list Poll) (b : Bot) :
  exists b',
    Paul_load_polls fetched b = (Ok tt, b') /\
    total_poll_count (world b')
      = total_poll_count (world b) + Z.of_nat (length fetched) /\
    closed_poll_count (world b')
      = closed_poll_count (world b) +
        Z.of_nat (length (List.filter
                            (fun p => negb (Poll_is_opened p (now (world b))))
                            fetched)) /\
    tasks (world b')
      = tasks (world b) ++
        map (fun p => SpawnPollCloseTask (poll_id p))
          (List.filter (fun p => Poll_is_opened p (now (world b))) fetched) /\
    views b' = views b ++ map poll_id fetched /\
    requests (world b') = requests (world b) /\
    now (world b') = now (world b) /\
    w_store (world b') = w_store (world b) /\
    on_ready_triggered b' = on_ready_triggered b.
Proof.
  unfold Paul_load_polls. revert b.
  induction fetched as [|p ps IH]; intros b.
  - exists b. simpl. rewrite !app_nil_r, !Z.add_0_r. done.
  - cbn [for_each]. rewrite (bind_Ok _ _ _ _ _ (load_one_poll p b)).
    set (b1 := {| world := _; views := _; on_ready_triggered := _ |}).
    destruct (IH b1) as (b' & Hrun & Htot & Hcl & Htasks & Hviews & Hreq & Hnow
                            & Hst & Hflag).
    assert (Hnow1 : now (world b1) = now (world b))
      by (subst b1; simpl; by destruct (Poll_is_opened p (now (world b)))).
    exists b'. split; [exact Hrun|].
    rewrite Htot, Hcl, Htasks, Hviews, Hreq, Hnow, Hst, Hflag, Hnow1.
    subst b1. cbn [length List.filter map negb].
    destruct (Poll_is_opened p (now (world b))); cbn [negb length map];
      simpl; rewrite <- ?app_assoc; repeat split; try done; lia.
Qed.


Lemma length_filter_split {A} (f : A -> bool) (l : list A) :
  length l = (length (List.filter f l)
              + length (List.filter (fun x => negb (f x)) l))%nat.
Proof.
  induction l as [|x l IH]; [done|]. simpl.
  destruct (f x); simpl; lia.
Qed.

(** X13: what __load_polls counts.  Loading the fetched polls returns; every
    poll is counted in the total and gets a view; exactly the polls that are
    open at that time get a close task, in the order fetched, and the others
    are counted as closed; so the number of active polls, total minus
    closed, grows by the number of close tasks started.  Nothing is
    requested from Discord, and the clock and the store are as before. *)
Theorem load_polls_counts_every_poll_once (fetched : list Poll) (b : Bot) :
  exists b',
    Paul_load_polls fetched b = (Ok tt, b') /\
    total_poll_count (world b')
      = total_poll_count (world b) + Z.of_nat (length fetched) /\
    tasks (world b')
      = tasks (world b) ++
        map (fun p => SpawnPollCloseTask (poll_id p))
          (List.filter (fun p => Poll_is_opened p (now (world b))) fetched) /\
    total_poll_count (world b') - closed_poll_count (world b')
      = total_poll_count (world b) - closed_poll_count (world b)
        + Z.of_nat (length (tasks (world b')) - length (tasks (world b))) /\
    views b' = views b ++ map poll_id fetched /\
    requests (world b') = requests (world b) /\
    now (world b') = now (world b) /\
    w_store (world b') = w_store (world b).
Proof.
  destruct (Paul_load_polls_effect fetched b)
    as (b' & Hrun & Htot & Hcl & Htasks & Hviews & Hreq & Hnow & Hst & _).
  exists b'. split; [exact Hrun|]. split; [exact Htot|]. split; [exact Htasks|].
  split; [|done].
  rewrite Htot, Hcl, Htasks, length_app, length_map.
  rewrite (length_filter_split (fun p => Poll_is_opened p (now (world b))) fetched).
  lia.
Qed.

(** X14: on_ready loads the polls once.  The first on_ready returns with the
    flag set and with the counts of __load_polls; every later on_ready,
    whatever it is given, returns without changing anything. *)
Theorem on_ready_loads_once (fetched later : list Poll) (b : Bot) :
  on_ready_triggered b = false ->
  exists b1,
    Paul_on_ready fetched b = (Ok tt, b1) /\
    on_ready_triggered b1 = true /\
    total_poll_count (world b1)
      = total_poll_count (world b) + Z.of_nat (length fetched) /\
    views b1 = views b ++ map poll_id fetched /\
    Paul_on_ready later b1 = (Ok tt, b1).
Proof.
  intros Hflag.
  destruct (Paul_load_polls_effect fetched b)
    as (b' & Hrun & Htot & _ & _ & Hviews & _).
  unfold Paul_on_ready at 1. unfold gets at 1. unfold mbind at 1, M_bind at 1.
  rewrite Hflag. cbn [negb]. rewrite (bind_Ok _ _ _ _ _ Hrun).
  assert (Hp : in_world Paul_set_presence b' =
    (Ok tt, {| world := presence_effect (world b'); views := views b';
               on_ready_triggered := on_ready_triggered b' |})).
  { unfold in_world. by rewrite Paul_set_presence_run. }
  rewrite (bind_Ok _ _ _ _ _ Hp).
  eexists. split; [reflexivity|]. simpl. split; [done|].
  destruct (presence_effect_fields (world b')) as (_ & _ & Htot' & _).
  rewrite Htot', Htot. split; [done|]. split; [done|].
  reflexivity.
Qed.

Lemma on_ready_loads_once_witness :
  exists b1,
    Paul_on_ready [poll_at scheduled_world 1; poll_at closed_by_hand_world 1]
      fresh_bot = (Ok tt, b1) /\
    total_poll_count (world b1) = 2 /\
    Paul_on_ready [] b1 = (Ok tt, b1).
Proof.
  destruct (on_ready_loads_once
              [poll_at scheduled_world 1; poll_at closed_by_hand_world 1] []
              fresh_bot eq_refl) as (b1 & Hrun & _ & Htot & _ & Hagain).
  exists b1. split; [exact Hrun|]. split; [exact Htot | exact Hagain].
Defined.

(** ** paul.py: the poll command and the repeat loop *)

Lemma parse_options_count raw labels :
  parse_options "|" raw = Ok labels ->
  labels <> [] /\ Z.of_nat (length labels) <= 23.
Proof.
  unfold parse_options, str_split.
  destruct (23 <? _) eqn:Hmany; [done|]. apply Z.ltb_ge in Hmany.
  destruct (find _ _); [done|].
  destruct (stripped_pieces _) as [|l ls] eqn:Hres; intros [= <-].
  - split; [done|]. simpl. lia.
  - done.
Qed.

(** X15: the poll command writes nothing itself.  Either a converter rejects
    the question or the options, and the command fails with a FriendlyError
    in an unchanged world; or the question is at most 254 characters long,
    there are between 1 and 23 labels, and the command sends the one
    "loading" message and starts the one repeat_poll task with these
    params, leaving the store, the polls and the poll count as they were. *)
Theorem poll_command_starts_one_task_or_fails (author_id : Z) (question : string)
    (options : option string) (expires : option Z) (multi : bool)
    (viewers editors voters : list Mention) (repeat_time repeat_count : option Z)
    (w : World) :
  match Paul_poll author_id question options expires multi viewers editors
          voters repeat_time repeat_count w with
  | (Ok _, w') =>
      len question <= 254 /\
      exists labels,
        labels <> [] /\ Z.of_nat (length labels) <= 23 /\
        requests w' =
          requests w ++ [SendMessage (message_serial w) (LoadingEmbed question)] /\
        tasks w' =
          tasks w ++
            [SpawnRepeatPoll
               (PollCommandParams.Build_t question labels expires multi viewers
                  editors voters repeat_time repeat_count)
               author_id (message_serial w)] /\
        w_store w' = w_store w /\ polls w' = polls w /\
        total_poll_count w' = total_poll_count w
  | (Raise e, w') => w' = w /\ exists msg, e = FriendlyError msg
  end.
Proof.
  unfold Paul_poll, lift, length_bound_str.
  unfold mbind at 1, M_bind at 1.
  destruct (254 <? len question) eqn:Hq; simpl.
  - split; [done|]. by eexists.
  - apply Z.ltb_ge in Hq.
    assert (Hmin : (len question <? 0) = false)
      by (apply Z.ltb_ge; unfold len; lia).
    rewrite Hmin. cbn [orb].
    destruct options as [raw|].
    + unfold mbind at 1, M_bind at 1.
      destruct (parse_options "|" raw) as [labels|e] eqn:Hparse.
      * destruct (parse_options_count _ _ Hparse) as [Hne Hlen].
        simpl. split; [done|]. exists labels. done.
      * split; [done|]. unfold parse_options, str_split in Hparse.
        destruct (23 <? _); [injection Hparse as <-; by eexists|].
        destruct (find _ _); [injection Hparse as <-; by eexists|].
        by destruct (stripped_pieces _).
    + simpl. split; [done|]. exists ["Yes"; "No"]%string. done.
Qed.

(** X16: without a repeat time and without a repeat count, repeat_poll
    creates one poll and ends: with params of no more than MAX_OPTIONS
    labels it returns after a single iteration, however much fuel is left,
    with one poll row written, one poll counted, and the clock where it
    was. *)
Theorem repeat_poll_without_repeat_runs_once (params : PollCommandParams.t)
    (author_id message : Z) (w : World) (fuel : nat) :
  PollCommandParams.repeat_time params = None ->
  PollCommandParams.repeat_count params = None ->
  Z.of_nat (length (PollCommandParams.options params)) <= MAX_OPTIONS ->
  (1 <= fuel)%nat ->
  exists w',
    Paul_repeat_poll fuel params author_id message w = (Ok (Some tt), w') /\
    poll_rows (w_store w') =
      poll_rows (w_store w) ++
        [{| prow_id := poll_serial (w_store w);
            prow_question := PollCommandParams.question params;
            prow_expires := PollCommandParams.expires params;
            prow_closed := false |}] /\
    total_poll_count w' = total_poll_count w + 1 /\
    now w' = now w.
Proof.
  intros Ht Hn Hlen Hfuel. unfold Paul_repeat_poll. rewrite Ht.
  destruct fuel as [|fuel]; [lia|]. cbn [repeat_poll_loop]. rewrite Hn, Ht.
  destruct (Paul_new_poll_creates author_id message params w Hlen)
    as (w1 & Hnew & Hrows & _ & Htot & Hnow).
  rewrite (bind_Ok _ _ _ _ _ Hnew). exists w1. done.
Qed.

Lemma repeat_poll_without_repeat_runs_once_witness :
  exists w',
    Paul_repeat_poll 5 (sample_params ["Tea"; "Coffee"]%string None None None)
      5 100 fresh_world = (Ok (Some tt), w') /\
    total_poll_count w' = 1.
Proof.
  destruct (repeat_poll_without_repeat_runs_once
              (sample_params ["Tea"; "Coffee"]%string None None None) 5 100
              fresh_world 5) as (w' & Hrun & _ & Htot & _).
  - reflexivity.
  - reflexivity.
  - vm_compute. discriminate.
  - lia.
  - exists w'. split; [exact Hrun | exact Htot].
Defined.





Lemma repeat_poll_without_expiry_witness :
  exists w',
    Paul_repeat_poll 4
      (sample_params ["Tea"; "Coffee"]%string None (Some 60) (Some 3))
      5 100 fresh_world = (Raise TypeError, w') /\
    total_poll_count w' = 1.
Proof.
  destruct (repeat_poll_without_expiry 5 100
              (sample_params ["Tea"; "Coffee"]%string None (Some 60) (Some 3))
              fresh_world 60 3 4) as (w' & Hrun & _ & Htot).
  - reflexivity.
  - reflexivity.
  - reflexivity.
  - vm_compute. discriminate.
  - lia.
  - lia.
  - exists w'. split; [exact Hrun | exact Htot].
Defined.

(** ** converters.py: labels in, labels out *)

(** X20: what the user types is what the poll gets.  Between 1 and 23
    labels, each one non-empty, at most 253 characters long, without a pipe
    and without white space at either end, typed with pipes between them,
    are returned by the converter as they are, in order. *)
Theorem parse_options_of_piped_labels (labels : list string) :
  labels <> [] ->
  Z.of_nat (length labels) <= 23 ->
  Forall (fun l => truthy l = true /\ no_pipe l = true /\
                   strip l = l /\ len l <= 253) labels ->
  parse_options "|" (String.concat "|" labels) = Ok labels.
Proof.
  intros Hne Hcount Hall.
  assert (Hpieces : split_from "|" 0 (String.concat "|" labels) = labels).
  { apply piped_labels_are_the_pieces; [done|].
    eapply List.Forall_impl; [|exact Hall]. by intros l (_ & ? & _). }
  assert (Hstr : stripped_pieces labels = labels).
  { unfold stripped_pieces. clear Hne Hcount Hpieces.
    induction Hall as [|l ls (Ht & _ & Hs & _) _ IH]; [done|].
    simpl. rewrite Ht. simpl. by rewrite Hs, IH. }
  unfold parse_options, str_split. rewrite Hpieces, Hstr.
  rewrite (proj2 (Z.ltb_ge _ _)) by done.
  destruct (find _ labels) as [long|] eqn:Hfind.
  - apply find_some in Hfind as [Hin Hlong]. simpl in Hlong.
    rewrite Forall_forall in Hall. destruct (Hall long Hin) as (_ & _ & _ & Hle).
    apply Z.ltb_lt in Hlong. lia.
  - by destruct labels.
Qed.

Lemma parse_options_of_piped_labels_witness :
  parse_options "|" (String.concat "|" ["Tea"; "Green tea"; "Coffee"]%string)
    = Ok ["Tea"; "Green tea"; "Coffee"]%string.
Proof.
  apply (parse_options_of_piped_labels ["Tea"; "Green tea"; "Coffee"]%string).
  - discriminate.
  - simpl. lia.
  - repeat constructor; vm_compute; congruence.
Defined.

(** X25: the two ways parse_options fails.  When the converter of the poll
    command raises, it raises a FriendlyError: either for more than 23
    labels, which it carries; or, with at most 23 labels, for the first
    label of more than 253 characters, which it carries.  The count is
    checked before the lengths. *)
Theorem parse_options_fails_in_two_ways (raw : string) (e : exn) :
  parse_options "|" raw = Raise e ->
  (exists labels,
     e = FriendlyError (TooManyOptions labels) /\
     labels = stripped_pieces (split_from "|" 0 raw) /\
     23 < Z.of_nat (length labels)) \/
  (exists before long after,
     e = FriendlyError (OptionTooLong long) /\
     stripped_pieces (split_from "|" 0 raw) = before ++ long :: after /\
     253 < len long /\
     Forall (fun l => len l <= 253) before /\
     Z.of_nat (length (before ++ long :: after)) <= 23).
Proof.
  unfold parse_options, str_split.
  set (result := stripped_pieces (split_from "|" 0 raw)).
  destruct (23 <? Z.of_nat (length result)) eqn:Hmany.
  - intros [= <-]. left. exists result. apply Z.ltb_lt in Hmany. done.
  - apply Z.ltb_ge in Hmany.
    destruct (find _ result) as [long|] eqn:Hfind;
      [|by destruct result].
    intros [= <-]. right.
    assert (Hsplit : exists before after,
      result = before ++ long :: after /\ 253 < len long /\
      Forall (fun l => len l <= 253) before).
    { clear Hmany. induction result as [|l ls IH]; [done|].
      cbn [find] in Hfind. destruct (253 <? len l) eqn:Hl.
      - injection Hfind as ->. exists [], ls. apply Z.ltb_lt in Hl. done.
      - destruct (IH Hfind) as (before & after & -> & Hlong & Hshort).
        exists (l :: before), after. split; [done|]. split; [done|].
        constructor; [by apply Z.ltb_ge in Hl|done]. }
    destruct Hsplit as (before & after & Heq & Hlong & Hshort).
    exists before, long, after. rewrite <- Heq. done.
Qed.

Lemma parse_options_fails_in_two_ways_witness :
  exists labels,
    parse_options "|" (String.concat "|" (take 24 letters))
      = Raise (FriendlyError (TooManyOptions labels)) /\
    23 < Z.of_nat (length labels).
Proof.
  destruct (parse_options_fails_in_two_ways (String.concat "|" (take 24 letters))
              (FriendlyError (TooManyOptions (take 24 letters))))
    as [(labels & He & Hl & Hn)|(before & long & after & He & _)].
  - vm_compute. reflexivity.
  - exists labels. injection He as <-. split; [vm_compute; reflexivity|exact Hn].
  - discriminate He.
Defined.

(** ** converters.py: parse_mentions *)

Lemma digit_value_nonneg c : is_digit c = true -> 0 <= digit_value c <= 9.
Proof.
  unfold is_digit, digit_value. intros [H1 H2]%andb_prop.
  apply N.leb_le in H1, H2. lia.
Qed.

Lemma fold_digits_nonneg ds : forall acc,
  all_digits ds = true -> 0 <= acc ->
  0 <= fold_left (fun acc c => 10 * acc + digit_value c)
         (list_ascii_of_string ds) acc.
Proof.
  induction ds as [|c ds IH]; intros acc Hd Hacc; [done|].
  cbn [all_digits] in Hd. apply andb_prop in Hd as [Hc Hds].
  cbn [list_ascii_of_string fold_left]. apply IH; [done|].
  pose proof (digit_value_nonneg c Hc). lia.
Qed.

Lemma span_digits_digits s : all_digits (fst (span_digits s)) = true.
Proof.
  induction s as [|c s IH]; [done|]. cbn [span_digits].
  destruct (is_digit c) eqn:Hc; [|done].
  destruct (span_digits s) as [ds rest]. simpl in *. by rewrite Hc, IH.
Qed.

Lemma match_digits_digits s ds :
  match_digits s = Some ds -> all_digits ds = true /\ ds <> EmptyString.
Proof.
  unfold match_digits. pose proof (span_digits_digits s) as Hd.
  destruct (span_digits s) as [[|c ds'] [|g rest]]; try done.
  destruct g as [[] [] [] [] [] [] [] []]; try done.
  intros [= <-]. done.
Qed.

Lemma match_mention_groups s k ds :
  match_mention s = Some (k, ds) ->
  mention_kind k /\ all_digits ds = true /\ ds <> EmptyString.
Proof.
  unfold match_mention, mention_kind.
  destruct s as [|c r]; [done|].
  destruct c as [[] [] [] [] [] [] [] []]; try done.
  assert (Hplain : pair EmptyString <$> match_digits r = Some (k, ds) ->
    (k = EmptyString \/ k = "@!"%string \/ k = "@&"%string) /\
    all_digits ds = true /\ ds <> EmptyString).
  { destruct (match_digits r) as [ds'|] eqn:Hm; [|done].
    intros [= <- <-]. split; [by left|]. by apply (match_digits_digits r). }
  destruct r as [|a r']; [exact Hplain|].
  destruct a as [[] [] [] [] [] [] [] []]; try exact Hplain.
  destruct r' as [|b r'']; [exact Hplain|].
  destruct b as [[] [] [] [] [] [] [] []]; try exact Hplain.
  - destruct (match_digits r'') as [ds'|] eqn:Hm; [|done].
    intros [= <- <-]. split; [by right; left|]. by apply (match_digits_digits r'').
  - destruct (match_digits r'') as [ds'|] eqn:Hm; [|done].
    intros [= <- <-]. split; [by right; right|]. by apply (match_digits_digits r'').
Qed.

Lemma findall_mentions_groups s : forall skip,
  Forall (fun tup => mention_kind (fst tup) /\ all_digits (snd tup) = true)
    (findall_mentions skip s).
Proof.
  induction s as [|c s IH]; intros skip; [by constructor|].
  cbn [findall_mentions]. destruct skip as [|k]; [|apply IH].
  destruct (match_mention (String c s)) as [[g1 g2]|] eqn:Hm; [|apply IH].
  constructor; [|apply IH].
  destruct (match_mention_groups _ _ _ Hm) as (? & ? & _). done.
Qed.

(** X21: what parse_mentions can return.  Whatever the text, and whether or
    not there is a guild, every mention returned has the kind "", "@!" or
    "@&", never the "@" of a plain user mention, and an id that is not
    negative. *)
Theorem parse_mentions_kinds_and_ids (default_role : option Z) (s : string) :
  Forall (fun m => mention_kind (kind m) /\ 0 <= mention_id m)
    (parse_mentions default_role s).
Proof.
  unfold parse_mentions.
  set (text := match default_role with Some _ => _ | None => s end).
  pose proof (findall_mentions_groups text 0) as Hall.
  induction Hall as [|[k ds] tups [Hk Hd] _ IH]; [by constructor|].
  constructor; [|exact IH]. simpl in *. split; [done|].
  by apply fold_digits_nonneg.
Qed.

Lemma findall_mentions_String c s :
  findall_mentions 0 (String c s) =
    match match_mention (String c s) with
    | Some (group1, group2) =>
        (group1, group2)
        :: findall_mentions (String.length group1 + String.length group2 + 1) s
    | None => findall_mentions 0 s
    end.
Proof. reflexivity. Qed.

Lemma findall_no_angle filler : forall rest,
  no_angle filler = true ->
  findall_mentions 0 (String.append filler rest) = findall_mentions 0 rest.
Proof.
  induction filler as [|c filler IH]; intros rest Hf; [done|].
  cbn [no_angle] in Hf. apply andb_prop in Hf as [Hc Hf].
  rewrite append_String. cbn [findall_mentions].
  assert (Hnone : match_mention (String c (String.append filler rest)) = None).
  { unfold match_mention.
    destruct c as [[] [] [] [] [] [] [] []]; try done. }
  rewrite Hnone. by apply IH.
Qed.

Lemma findall_skip pre : forall rest,
  findall_mentions (String.length pre) (String.append pre rest)
    = findall_mentions 0 rest.
Proof.
  induction pre as [|c pre IH]; intros rest; [done|].
  rewrite append_String. cbn [String.length].
  change (findall_mentions (Datatypes.S (String.length pre))
            (String c (String.append pre rest)))
    with (findall_mentions (String.length pre) (String.append pre rest)).
  apply IH.
Qed.

(** X22: text in which no "<" occurs holds no mention, and neither does a
    plain user mention "<@digits>": without a guild, parse_mentions returns
    the empty list for both. *)
Theorem parse_mentions_reads_no_plain_user_mention (s ds : string) :
  (no_angle s = true -> parse_mentions None s = []) /\
  (all_digits ds = true ->
   parse_mentions None (String "<" (String "@" (String.append ds ">"))) = []).
Proof.
  assert (Hplain : forall t, no_angle t = true -> findall_mentions 0 t = []).
  { induction t as [|c t IH]; [done|]. cbn [no_angle].
    intros [Hc Ht]%andb_prop. cbn [findall_mentions].
    assert (Hnone : match_mention (String c t) = None).
    { unfold match_mention. destruct c as [[] [] [] [] [] [] [] []]; try done. }
    rewrite Hnone. by apply IH. }
  split.
  - intros Hs. unfold parse_mentions. by rewrite Hplain.
  - intros Hd. unfold parse_mentions.
    assert (Htail : no_angle (String "@" (String.append ds ">")) = true).
    { cbn [no_angle]. simpl. clear Hplain.
      induction ds as [|c ds IH]; [done|].
      cbn [all_digits] in Hd. apply andb_prop in Hd as [Hc Hds].
      rewrite append_String. cbn [no_angle]. rewrite (IH Hds), andb_true_r.
      destruct c as [[] [] [] [] [] [] [] []]; try done. }
    rewrite findall_mentions_String.
    assert (Hnone : match_mention (String "<" (String "@" (String.append ds ">")))
                    = None).
    { unfold match_mention.
      destruct ds as [|c ds']; [done|]. rewrite append_String.
      cbn [all_digits] in Hd. apply andb_prop in Hd as [Hc _].
      destruct c as [[] [] [] [] [] [] [] []]; try done. }
    rewrite Hnone. by rewrite (Hplain _ Htail).
Qed.

Lemma parse_mentions_reads_no_plain_user_mention_witness :
  parse_mentions None "see you at 5 > 4" = [] /\
  parse_mentions None "<@123>" = [].
Proof.
  destruct (parse_mentions_reads_no_plain_user_mention "see you at 5 > 4" "123")
    as [H1 H2].
  split; [apply H1; reflexivity | apply H2; reflexivity].
Defined.

Lemma fold_of_uint_acc d : forall acc,
  fold_left (fun acc c => 10 * acc + digit_value c)
    (list_ascii_of_string (NilEmpty.string_of_uint d)) (Z.pos acc)
  = Z.pos (Pos.of_uint_acc d acc).
Proof.
  induction d as [|d IH|d IH|d IH|d IH|d IH|d IH|d IH|d IH|d IH|d IH];
    intros acc; [done|..];
    cbn [NilEmpty.string_of_uint list_ascii_of_string fold_left Pos.of_uint_acc];
    rewrite <- IH; f_equal; unfold digit_value; simpl; lia.
Qed.

Lemma fold_of_uint d :
  int_of_digits (NilEmpty.string_of_uint d) = Z.of_N (Pos.of_uint d).
Proof.
  unfold int_of_digits.
  induction d as [|d IH|d IH|d IH|d IH|d IH|d IH|d IH|d IH|d IH|d IH];
    [done|exact IH|..];
    cbn [NilEmpty.string_of_uint list_ascii_of_string fold_left Pos.of_uint];
    apply (fold_of_uint_acc d).
Qed.

Lemma all_digits_string_of_uint d :
  all_digits (NilEmpty.string_of_uint d) = true.
Proof. induction d; simpl; try done. Qed.

Lemma str_of_int_pos p :
  str_of_int (Z.pos p) = NilEmpty.string_of_uint (Pos.to_uint p).
Proof.
  unfold str_of_int. simpl. unfold NilZero.string_of_uint.
  pose proof (Unsigned.to_uint_nonnil p). by destruct (Pos.to_uint p).
Qed.

(** The decimal text of a number that is not negative: digits only, at
    least one, and int reads the number back. *)
Lemma str_of_int_digits n :
  0 <= n ->
  all_digits (str_of_int n) = true /\ str_of_int n <> EmptyString /\
  int_of_digits (str_of_int n) = n.
Proof.
  intros Hn. destruct n as [|p|p]; [done| |lia].
  rewrite str_of_int_pos. split; [apply all_digits_string_of_uint|]. split.
  - pose proof (Unsigned.to_uint_nonnil p). by destruct (Pos.to_uint p).
  - by rewrite fold_of_uint, Unsigned.of_to.
Qed.

Lemma span_digits_then_gt ds rest :
  all_digits ds = true ->
  span_digits (String.append ds (String ">" rest)) = (ds, String ">" rest).
Proof.
  induction ds as [|c ds IH]; [done|]. cbn [all_digits].
  intros [Hc Hds]%andb_prop. rewrite append_String. cbn [span_digits].
  by rewrite Hc, (IH Hds).
Qed.

Lemma match_digits_then_gt ds rest :
  all_digits ds = true -> ds <> EmptyString ->
  match_digits (String.append ds (String ">" rest)) = Some ds.
Proof.
  intros Hd Hne. unfold match_digits. rewrite span_digits_then_gt by done.
  by destruct ds.
Qed.

Lemma match_mention_rendered k ds rest :
  mention_kind k -> all_digits ds = true -> ds <> EmptyString ->
  match_mention
    (String "<" (String.append k (String.append ds (String ">" rest))))
  = Some (k, ds).
Proof.
  intros [->|[->| ->]] Hd Hne.
  - change (String.append EmptyString (String.append ds (String ">" rest)))
      with (String.append ds (String ">" rest)).
    assert (Hm := match_digits_then_gt ds rest Hd Hne).
    destruct ds as [|c ds']; [done|]. rewrite append_String in *.
    cbn [all_digits] in Hd. apply andb_prop in Hd as [Hc _].
    unfold match_mention.
    destruct c as [[] [] [] [] [] [] [] []]; try done; by rewrite Hm.
  - change (String.append "@!" (String.append ds (String ">" rest)))
      with (String "@" (String "!" (String.append ds (String ">" rest)))).
    unfold match_mention. by rewrite match_digits_then_gt.
  - change (String.append "@&" (String.append ds (String ">" rest)))
      with (String "@" (String "&" (String.append ds (String ">" rest)))).
    unfold match_mention. by rewrite match_digits_then_gt.
Qed.

Lemma append_append s1 s2 s3 :
  String.append (String.append s1 s2) s3 = String.append s1 (String.append s2 s3).
Proof. induction s1 as [|c s1 IH]; [done|]. by rewrite !append_String, IH. Qed.

Lemma findall_rendered k ds rest :
  mention_kind k -> all_digits ds = true -> ds <> EmptyString ->
  findall_mentions 0
    (String "<" (String.append k (String.append ds (String ">" rest))))
  = (k, ds) :: findall_mentions 0 rest.
Proof.
  intros Hk Hd Hne. rewrite findall_mentions_String.
  rewrite match_mention_rendered by done. f_equal.
  change (String ">" rest) with (String.append ">" rest).
  rewrite <- !append_append.
  replace (String.length k + String.length ds + 1)%nat
    with (String.length (String.append (String.append k ds) ">")).
  - apply findall_skip.
  - rewrite !length_append. reflexivity.
Qed.


Lemma append_nil_r s : String.append s EmptyString = s.
Proof. induction s as [|c s IH]; [done|]. by rewrite append_String, IH. Qed.



Lemma split_pieces_no_angle sep : forall s k,
  no_angle s = true ->
  Forall (fun p => no_angle p = true) (split_from sep k s).
Proof.
  induction s as [|c s IH]; intros k Hs; [by repeat constructor|].
  cbn [no_angle] in Hs. apply andb_prop in Hs as [Hc Hs].
  cbn [split_from]. destruct k as [|k]; [|by apply IH].
  destruct (String.prefix sep (String c s)).
  - constructor; [done|by apply IH].
  - pose proof (IH 0%nat Hs) as Hall.
    destruct (split_from sep 0 s) as [|p ps].
    + repeat constructor. cbn [no_angle]. by rewrite Hc.
    + inversion Hall; subst. constructor; [|done].
      cbn [no_angle]. by rewrite Hc, H1.
Qed.

Lemma findall_joined k ds :
  mention_kind k -> all_digits ds = true -> ds <> EmptyString ->
  forall pieces,
    Forall (fun p => no_angle p = true) pieces ->
    findall_mentions 0
      (String.concat
         (String "<" (String.append k (String.append ds ">"))) pieces)
    = replicate (length pieces - 1) (k, ds).
Proof.
  intros Hk Hd Hne pieces Hall.
  induction Hall as [|p ps Hp Hps IH]; [done|].
  destruct ps as [|q ps].
  - cbn [String.concat]. rewrite <- (append_nil_r p).
    by rewrite findall_no_angle.
  - change (String.concat ?sep (p :: q :: ps))
      with (String.append p (String.append sep (String.concat sep (q :: ps)))).
    rewrite findall_no_angle by done.
    rewrite append_String, !append_append.
    change (String.append ">" ?rest) with (String ">" rest).
    rewrite findall_rendered by done.
    rewrite IH. cbn [length]. by rewrite !Nat.sub_succ, Nat.sub_0_r.
Qed.

(** X24: "@everyone" is the default role of the guild.  In a guild whose
    default role has an id that is not negative, text in which no "<"
    occurs gives one mention of that role, of the kind "@&", for every
    occurrence of "@everyone", found from left to right without overlap,
    and nothing else; the text "@everyone" alone gives exactly one. *)
Theorem parse_mentions_everyone (role : Z) (s : string) :
  0 <= role ->
  no_angle s = true ->
  parse_mentions (Some role) s
    = replicate (length (split_from "@everyone" 0 s) - 1)
        {| kind := "@&"; mention_id := role |} /\
  parse_mentions (Some role) "@everyone" = [{| kind := "@&"; mention_id := role |}].
Proof.
  intros Hrole Hs.
  destruct (str_of_int_digits _ Hrole) as (Hd & Hne & Hint).
  assert (Hgen : forall t, no_angle t = true ->
    parse_mentions (Some role) t
      = replicate (length (split_from "@everyone" 0 t) - 1)
          {| kind := "@&"; mention_id := role |}).
  { intros t Ht. unfold parse_mentions, str_replace.
    change (String.append "<@&" (String.append (str_of_int role) ">"))
      with (String "<" (String.append "@&" (String.append (str_of_int role) ">"))).
    rewrite findall_joined;
      [|by right; right|done|done|by apply split_pieces_no_angle].
    induction (length (split_from "@everyone" 0 t) - 1)%nat as [|n IH]; [done|].
    cbn [replicate map fst snd]. by rewrite Hint, IH. }
  split; [by apply Hgen|].
  by rewrite Hgen.
Qed.

Lemma parse_mentions_everyone_witness :
  parse_mentions (Some 904120454975991828) "hi @everyone, yes @everyone!"
    = [{| kind := "@&"; mention_id := 904120454975991828 |};
       {| kind := "@&"; mention_id := 904120454975991828 |}].
Proof.
  apply (parse_mentions_everyone 904120454975991828
           "hi @everyone, yes @everyone!"); [lia|reflexivity].
Defined.
